(** * maps-to-images: the payload mining engine and the retrieval pipeline

    A shallow embedding of [app.py]: the positional lookup
    [get_nested_value], the recursive miner [find_image_urls_recursively]
    with its URL filters, the title / address extraction and the retry loop
    of [extract_images_for_place], and [download_image] with the batch of
    [main_with_downloads].

    Python strings are sequences of Unicode code points; JSON-like payloads
    are a tagged tree.  What the interpreter supplies (the Unicode character
    tables, [json.loads], [repr] of floats and strings, [str.lower]) is an
    interface, [PyRuntime]; every general theorem holds for any
    implementation of it.

    The browser page and the HTTP session are collaborators: the page is
    the sequence of values its [evaluate] returns, a request is what the
    session answers to it.  Logging and the debug files are left out, and
    so are the limits of the interpreter (recursion depth, the length of a
    digit string [int] accepts). *)

From Stdlib Require Import ZArith NArith List Bool Lia String Ascii.
From Stdlib Require Import Permutation Sorted ListSet DecimalString DecimalNat.
From Stdlib Require Import Floats.PrimFloat.
Import ListNotations.

Set Implicit Arguments.
Set Warnings "-register-all".
Local Open Scope list_scope.

(* ================================================================== *)
(** ** Python strings *)

Module PyStr.

(** A character is a Unicode code point. *)
Definition char := N.
Definition str := list char.

Definition char_eqb (a b : char) : bool := N.eqb a b.

(** An ASCII literal of the source, as code points. *)
Definition lit (s : string) : str :=
  List.map N_of_ascii (list_ascii_of_string s).

Definition chr (a : ascii) : char := N_of_ascii a.

Fixpoint str_eqb (a b : str) : bool :=
  match a, b with
  | [], [] => true
  | x :: a', y :: b' => char_eqb x y && str_eqb a' b'
  | _, _ => false
  end.

Definition str_eq_dec : forall a b : str, {a = b} + {a <> b} :=
  list_eq_dec N.eq_dec.

(** [s.startswith(p)] *)
Fixpoint startswith (p s : str) : bool :=
  match p, s with
  | [], _ => true
  | x :: p', y :: s' => char_eqb x y && startswith p' s'
  | _ :: _, [] => false
  end.

(** [p in s] for strings: [p] occurs as a substring of [s]. *)
Fixpoint contains (p s : str) : bool :=
  startswith p s ||
  match s with
  | [] => false
  | _ :: s' => contains p s'
  end.

(** [c in chars] for one character. *)
Definition char_in (chars : str) (c : char) : bool :=
  existsb (char_eqb c) chars.

(** [s[n:]] for [0 <= n]. *)
Definition slice_from (n : nat) (s : str) : str := skipn n s.

(** [sep.join(parts)] *)
Fixpoint join (sep : str) (parts : list str) : str :=
  match parts with
  | [] => []
  | [p] => p
  | p :: rest => p ++ sep ++ join sep rest
  end.

(** [s.lstrip(chars)]: drop leading characters that belong to [chars]. *)
Fixpoint lstrip_by (f : char -> bool) (s : str) : str :=
  match s with
  | [] => []
  | c :: s' => if f c then lstrip_by f s' else s
  end.

Definition rstrip_by (f : char -> bool) (s : str) : str :=
  rev (lstrip_by f (rev s)).

Definition strip_by (f : char -> bool) (s : str) : str :=
  rstrip_by f (lstrip_by f s).

(** Python compares strings lexicographically by code point. *)
Fixpoint str_ltb (a b : str) : bool :=
  match a, b with
  | [], [] => false
  | [], _ :: _ => true
  | _ :: _, [] => false
  | x :: a', y :: b' =>
      if N.ltb x y then true
      else if N.ltb y x then false
      else str_ltb a' b'
  end.

Definition str_leb (a b : str) : bool := negb (str_ltb b a).

(** [s.split(c)[0]]: the part before the first [c]. *)
Fixpoint before_first (c : char) (s : str) : str :=
  match s with
  | [] => []
  | x :: s' => if char_eqb x c then [] else x :: before_first c s'
  end.

(** [s.split(c)[-1]]: the part after the last [c]. *)
Fixpoint after_last (c : char) (s : str) : str :=
  match s with
  | [] => []
  | x :: s' =>
      if existsb (char_eqb c) s' then after_last c s'
      else if char_eqb x c then s' else s
  end.

End PyStr.
Export PyStr.

(* ================================================================== *)
(** ** The payload tree *)

Module Payload.

(** What [page.evaluate] and [json.loads] hand back: [None], booleans,
    integers, floats, strings, lists and dicts with string keys.  A dict is
    the sequence of its items, in iteration order. *)
Inductive value : Type :=
| VNull
| VBool (b : bool)
| VInt (z : Z)
| VFloat (f : float)
| VStr (s : str)
| VList (items : list value)
| VDict (items : list (str * value)).

(** Induction over the tree, through the lists of children. *)
Section value_induction.
Variable P : value -> Prop.
Hypothesis HNull : P VNull.
Hypothesis HBool : forall b, P (VBool b).
Hypothesis HInt : forall z, P (VInt z).
Hypothesis HFloat : forall f, P (VFloat f).
Hypothesis HStr : forall s, P (VStr s).
Hypothesis HList : forall items, Forall P items -> P (VList items).
Hypothesis HDict :
  forall items, Forall (fun kv => P (snd kv)) items -> P (VDict items).

Fixpoint value_tree_ind (v : value) : P v :=
  match v with
  | VNull => HNull
  | VBool b => HBool b
  | VInt z => HInt z
  | VFloat f => HFloat f
  | VStr s => HStr s
  | VList items =>
      HList ((fix all (l : list value) : Forall P l :=
                match l with
                | [] => Forall_nil _
                | x :: l' => Forall_cons x (value_tree_ind x) (all l')
                end) items)
  | VDict items =>
      HDict ((fix all (l : list (str * value))
                : Forall (fun kv => P (snd kv)) l :=
                match l with
                | [] => Forall_nil _
                | kv :: l' =>
                    Forall_cons kv (value_tree_ind (snd kv)) (all l')
                end) items)
  end.
End value_induction.

(** Python truthiness: [if v:]. *)
Definition truthy (v : value) : bool :=
  match v with
  | VNull => false
  | VBool b => b
  | VInt z => negb (Z.eqb z 0)
  | VFloat f => negb (PrimFloat.eqb f 0%float)
  | VStr s => match s with [] => false | _ => true end
  | VList items => match items with [] => false | _ => true end
  | VDict items => match items with [] => false | _ => true end
  end.

Definition is_str (v : value) : bool :=
  match v with VStr _ => true | _ => false end.

Definition is_list (v : value) : bool :=
  match v with VList _ => true | _ => false end.

Definition is_null (v : value) : bool :=
  match v with VNull => true | _ => false end.

(** [d[k]] guarded by [k in d]. *)
Fixpoint dict_get (k : str) (d : list (str * value)) : option value :=
  match d with
  | [] => None
  | (k', v) :: d' => if str_eqb k k' then Some v else dict_get k d'
  end.

End Payload.
Export Payload.

(* ================================================================== *)
(** ** What the interpreter supplies *)

Class PyRuntime : Type := {
  (** [str.isspace] of one character: what [str.strip()] removes. *)
  uni_isspace : char -> bool;
  (** the decimal digit value of a character, if it is one: what [\d]
      matches and what [int()] reads. *)
  uni_decimal : char -> option N;
  (** [str.isalnum] of one character; with ['_'] these are the [\w]. *)
  uni_isalnum : char -> bool;
  (** [str.lower()] *)
  str_lower : str -> str;
  (** [json.loads]; [None] stands for [json.JSONDecodeError]. *)
  json_loads : str -> option value;
  (** [repr] of a float and of a string. *)
  float_repr : float -> str;
  str_repr : str -> str
}.

Section Builtins.
Context {R : PyRuntime}.

(** [s.strip()] *)
Definition strip (s : str) : str := strip_by uni_isspace s.

Definition is_digit (c : char) : bool :=
  match uni_decimal c with Some _ => true | None => false end.

(** [\w] and [\W] of a [str] pattern. *)
Definition is_word (c : char) : bool :=
  uni_isalnum c || char_eqb c (chr "_").

(** [int(digits)] for a run of decimal digits. *)
Definition int_of_digits (digits : str) : N :=
  fold_left
    (fun acc c => match uni_decimal c with
                  | Some d => (10 * acc + d)%N
                  | None => acc
                  end)
    digits 0%N.

Definition int_repr (z : Z) : str :=
  lit (NilZero.string_of_int (Z.to_int z)).

(** [repr(v)] and [str(v)]. *)
Fixpoint py_repr (v : value) : str :=
  match v with
  | VNull => lit "None"
  | VBool true => lit "True"
  | VBool false => lit "False"
  | VInt z => int_repr z
  | VFloat f => float_repr f
  | VStr s => str_repr s
  | VList items =>
      lit "[" ++ join (lit ", ") (List.map py_repr items) ++ lit "]"
  | VDict items =>
      lit "{" ++
      join (lit ", ")
        (List.map (fun kv => str_repr (fst kv) ++ lit ": " ++ py_repr (snd kv))
           items) ++
      lit "}"
  end.

Definition py_str (v : value) : str :=
  match v with
  | VStr s => s
  | _ => py_repr v
  end.

End Builtins.

(* ================================================================== *)
(** ** Regular expressions of the [re] module *)

Module Regex.

(** The fragment of [re] syntax the source's fully-matched pattern is
    written in: character sets, concatenation, alternation, [?] and [+]. *)
Inductive regex : Type :=
| Void
| Eps
| Sym (p : char -> bool)
| Seq (r1 r2 : regex)
| Alt (r1 r2 : regex)
| Star (r : regex).

Definition Opt (r : regex) : regex := Alt r Eps.
Definition Plus (r : regex) : regex := Seq r (Star r).
Definition Chr (a : ascii) : regex := Sym (char_eqb (chr a)).

(** A literal run of characters. *)
Fixpoint Lit (s : string) : regex :=
  match s with
  | EmptyString => Eps
  | String a s' => Seq (Chr a) (Lit s')
  end.

(** [[lo-hi]] *)
Definition in_range (lo hi : ascii) (c : char) : bool :=
  N.leb (chr lo) c && N.leb c (chr hi).

(** [re.fullmatch]: with no anchors, look-arounds or back-references in
    the pattern, a backtracking matcher accepts the whole string exactly
    when the string is in the pattern's language. *)
Fixpoint nullable (r : regex) : bool :=
  match r with
  | Void => false
  | Eps => true
  | Sym _ => false
  | Seq r1 r2 => nullable r1 && nullable r2
  | Alt r1 r2 => nullable r1 || nullable r2
  | Star _ => true
  end.

Fixpoint deriv (c : char) (r : regex) : regex :=
  match r with
  | Void => Void
  | Eps => Void
  | Sym p => if p c then Eps else Void
  | Seq r1 r2 =>
      if nullable r1
      then Alt (Seq (deriv c r1) r2) (deriv c r2)
      else Seq (deriv c r1) r2
  | Alt r1 r2 => Alt (deriv c r1) (deriv c r2)
  | Star r1 => Seq (deriv c r1) (Star r1)
  end.

Fixpoint fullmatch (r : regex) (s : str) : bool :=
  match s with
  | [] => nullable r
  | c :: s' => fullmatch (deriv c r) s'
  end.

(** The language of a pattern. *)
Inductive matches : regex -> str -> Prop :=
| MEps : matches Eps []
| MSym : forall p c, p c = true -> matches (Sym p) [c]
| MSeq : forall r1 r2 s1 s2,
    matches r1 s1 -> matches r2 s2 -> matches (Seq r1 r2) (s1 ++ s2)
| MAltL : forall r1 r2 s, matches r1 s -> matches (Alt r1 r2) s
| MAltR : forall r1 r2 s, matches r2 s -> matches (Alt r1 r2) s
| MStarNil : forall r, matches (Star r) []
| MStarApp : forall r s1 s2,
    matches r s1 -> matches (Star r) s2 -> matches (Star r) (s1 ++ s2).

End Regex.
Export Regex.

(* ================================================================== *)
(** ** The URL filters and the recursive miner *)

Module Miner.

(** [https?:] *)
Definition scheme : regex :=
  Seq (Lit "http") (Seq (Opt (Chr "s")) (Chr ":")).

(** [[^/]] *)
Definition not_slash : regex :=
  Sym (fun c => negb (char_eqb c (chr "/"))).

(** [[a-zA-Z0-9\-_./=&?%]] *)
Definition url_path_char (c : char) : bool :=
  in_range "a" "z" c || in_range "A" "Z" c || in_range "0" "9" c ||
  char_in (lit "-_./=&?%") c.

(** [//(?:lh[3-6]\.googleusercontent\.com|[^/]+\.ggpht\.com|
       [^/]+\.googleusercontent\.com/profile/picture)/[a-zA-Z0-9\-_./=&?%]+] *)
Definition host_and_path : regex :=
  Seq (Lit "//")
    (Seq
       (Alt (Seq (Lit "lh")
               (Seq (Sym (in_range "3" "6")) (Lit ".googleusercontent.com")))
          (Alt (Seq (Plus not_slash) (Lit ".ggpht.com"))
             (Seq (Plus not_slash)
                (Lit ".googleusercontent.com/profile/picture"))))
       (Seq (Chr "/") (Plus (Sym url_path_char)))).

(** [IMAGE_HOSTS_REGEX]: [(?:https?:)?] followed by the rest. *)
Definition IMAGE_HOSTS_REGEX : regex := Seq (Opt scheme) host_and_path.

(** [re.search]: is there a position where the pattern matches? *)
Fixpoint search (here : str -> bool) (s : str) : bool :=
  here s ||
  match s with
  | [] => false
  | _ :: s' => search here s'
  end.

(** [re.search] with a group: the leftmost position where it matches. *)
Fixpoint search_group (here : str -> option str) (s : str) : option str :=
  match here s with
  | Some g => Some g
  | None =>
      match s with
      | [] => None
      | _ :: s' => search_group here s'
      end
  end.

Fixpoint take_while (f : char -> bool) (s : str) : str :=
  match s with
  | [] => []
  | c :: s' => if f c then c :: take_while f s' else []
  end.

(** [$] without [re.MULTILINE]: at the end of the string, or just before
    a newline that ends it. *)
Definition at_dollar (rest : str) : bool :=
  match rest with
  | [] => true
  | [c] => char_eqb c 10%N
  | _ => false
  end.

Section WithRuntime.
Context {R : PyRuntime}.

(** [TINY_IMAGE_PARAM_REGEX = [=&?]s(?:1[6-9]|[2-6]\d)($|\W)], tried at
    the head of [s]. *)
Definition tiny_param_here (s : str) : bool :=
  match s with
  | c0 :: c1 :: c2 :: c3 :: rest =>
      char_in (lit "=&?") c0 && char_eqb c1 (chr "s") &&
      ((char_eqb c2 (chr "1") && in_range "6" "9" c3) ||
       (in_range "2" "6" c2 && is_digit c3)) &&
      (at_dollar rest ||
       match rest with
       | c :: _ => negb (is_word c)
       | [] => false
       end)
  | _ => false
  end.

Definition TINY_IMAGE_PARAM_search (s : str) : bool :=
  search tiny_param_here s.

(** [[=/]s(\d+)] tried at the head of [s]; the group is the longest run
    of digits. *)
Definition size_token_here (s : str) : option str :=
  match s with
  | c0 :: c1 :: rest =>
      if char_in (lit "=/") c0 && char_eqb c1 (chr "s") then
        match take_while is_digit rest with
        | [] => None
        | digits => Some digits
        end
      else None
  | _ => None
  end.

Definition size_match (url : str) : option str :=
  search_group size_token_here url.

(** [if url_to_add.startswith('//'): url_to_add = 'https:' + url_to_add] *)
Definition normalize (url : str) : str :=
  if startswith (lit "//") url then lit "https:" ++ url else url.

Definition is_small_sized_profile_pic (url_to_add : str) : bool :=
  let is_profile_pic := contains (lit "/profile/picture/") url_to_add in
  if is_profile_pic then
    match size_match url_to_add with
    | Some digits => N.ltb (int_of_digits digits) 100
    | None => false
    end
  else false.

(** What both branches of the miner do with a string (lines 71-83 and
    88-100, the same text twice): the URL that is added to the set, if
    any. *)
Definition classify (s : str) : option str :=
  if fullmatch IMAGE_HOSTS_REGEX s then
    let url_to_add := normalize s in
    if negb (TINY_IMAGE_PARAM_search url_to_add) then
      if negb (is_small_sized_profile_pic url_to_add)
      then Some url_to_add
      else None
    else None
  else None.

(** A Python [set] of strings, as the duplicate-free list of its members;
    only membership is observable. *)
Definition urlset := list str.

Definition set_add_url (url : str) (found : urlset) : urlset :=
  set_add str_eq_dec url found.

Definition visit_str (s : str) (found_urls_set : urlset) : urlset :=
  match classify s with
  | Some url_to_add => set_add_url url_to_add found_urls_set
  | None => found_urls_set
  end.

(** Lines 67-101.  The set is mutated in place by the source; here it is
    threaded. *)
Fixpoint find_image_urls_recursively
  (data_structure : value) (found_urls_set : urlset) : urlset :=
  match data_structure with
  | VDict items =>
      (fix each (items : list (str * value)) (found : urlset) : urlset :=
         match items with
         | [] => found
         | (_, v) :: rest =>
             each rest
               match v with
               | VStr s => visit_str s found
               | _ => find_image_urls_recursively v found
               end
         end) items found_urls_set
  | VList items =>
      (fix each (items : list value) (found : urlset) : urlset :=
         match items with
         | [] => found
         | item :: rest =>
             each rest
               match item with
               | VStr s => visit_str s found
               | _ => find_image_urls_recursively item found
               end
         end) items found_urls_set
  | _ => found_urls_set
  end.

(** [sorted(...)]: on a list without duplicates every correct sort by
    the string order gives the same list. *)
Fixpoint insert_sorted (x : str) (l : list str) : list str :=
  match l with
  | [] => [x]
  | y :: l' => if str_leb x y then x :: l else y :: insert_sorted x l'
  end.

Definition sorted (l : list str) : list str :=
  fold_right insert_sorted [] l.

(** [image_urls_found_recursively = set(); find_image_urls_recursively(...);
     sorted(list(image_urls_found_recursively))] *)
Definition mine (json_data_obj : value) : urlset :=
  find_image_urls_recursively json_data_obj [].

Definition image_urls_of (json_data_obj : value) : list str :=
  sorted (mine json_data_obj).

End WithRuntime.
End Miner.
Export Miner.

(* ================================================================== *)
(** ** A runtime for ASCII text *)

Module AsciiRuntime.

(** The whitespace characters of [str.isspace]. *)
Definition isspace (c : char) : bool :=
  (N.leb 9 c && N.leb c 13) || (N.leb 28 c && N.leb c 32) ||
  N.eqb c 133 || N.eqb c 160 || N.eqb c 5760 ||
  (N.leb 8192 c && N.leb c 8202) || N.eqb c 8232 || N.eqb c 8233 ||
  N.eqb c 8239 || N.eqb c 8287 || N.eqb c 12288.

Definition decimal (c : char) : option N :=
  if in_range "0" "9" c then Some (c - 48)%N else None.

Definition isalnum (c : char) : bool :=
  in_range "a" "z" c || in_range "A" "Z" c || in_range "0" "9" c.

Definition lower_char (c : char) : char :=
  if in_range "A" "Z" c then (c + 32)%N else c.

(** [repr] of a string with no quote, backslash or control character. *)
Definition plain_repr (s : str) : str := lit "'" ++ s ++ lit "'".

(** [json.loads] on a fragment of JSON: [null], [true], [false],
    integers, strings without escapes, arrays and objects, with white
    space between tokens.  Anything else is refused. *)
Definition json_ws (c : char) : bool :=
  N.eqb c 32 || N.eqb c 10 || N.eqb c 13 || N.eqb c 9.

Definition quote : char := 34%N.

Fixpoint read_string (s acc : str) : option (str * str) :=
  match s with
  | [] => None
  | c :: s' =>
      if char_eqb c quote then Some (rev acc, s')
      else if char_eqb c (chr "\") || N.ltb c 32 then None
      else read_string s' (c :: acc)
  end.

Definition read_int (s : str) : option (Z * str) :=
  let digits := take_while (in_range "0" "9") s in
  match digits with
  | [] => None
  | d :: more =>
      if char_eqb d (chr "0") && negb (match more with [] => true | _ => false end)
      then None
      else
        Some (Z.of_N (fold_left (fun acc c => (10 * acc + (c - 48))%N) digits 0%N),
              skipn (List.length digits) s)
  end.

(** [d[k] = v]: a key that is there keeps its place. *)
Fixpoint dict_set (k : str) (v : value) (d : list (str * value))
  : list (str * value) :=
  match d with
  | [] => [(k, v)]
  | (k', v') :: d' =>
      if str_eqb k k' then (k, v) :: d' else (k', v') :: dict_set k v d'
  end.

Fixpoint parse_value (fuel : nat) (s : str) : option (value * str) :=
  match fuel with
  | O => None
  | S fuel' =>
      let s := lstrip_by json_ws s in
      if startswith (lit "null") s then Some (VNull, skipn 4 s)
      else if startswith (lit "true") s then Some (VBool true, skipn 4 s)
      else if startswith (lit "false") s then Some (VBool false, skipn 5 s)
      else
        match s with
        | [] => None
        | c :: rest =>
            if char_eqb c quote then
              match read_string rest [] with
              | Some (t, rest') => Some (VStr t, rest')
              | None => None
              end
            else if char_eqb c (chr "[") then
              match lstrip_by json_ws rest with
              | c' :: rest' =>
                  if char_eqb c' (chr "]") then Some (VList [], rest')
                  else parse_elements fuel' rest []
              | [] => None
              end
            else if char_eqb c (chr "{") then
              match lstrip_by json_ws rest with
              | c' :: rest' =>
                  if char_eqb c' (chr "}") then Some (VDict [], rest')
                  else parse_members fuel' rest []
              | [] => None
              end
            else if char_eqb c (chr "-") then
              match read_int rest with
              | Some (z, rest') => Some (VInt (- z), rest')
              | None => None
              end
            else
              match read_int s with
              | Some (z, rest') => Some (VInt z, rest')
              | None => None
              end
        end
  end

with parse_elements (fuel : nat) (s : str) (acc : list value)
  : option (value * str) :=
  match fuel with
  | O => None
  | S fuel' =>
      match parse_value fuel' s with
      | Some (v, rest) =>
          match lstrip_by json_ws rest with
          | c :: rest' =>
              if char_eqb c (chr ",") then parse_elements fuel' rest' (v :: acc)
              else if char_eqb c (chr "]") then Some (VList (rev (v :: acc)), rest')
              else None
          | [] => None
          end
      | None => None
      end
  end

with parse_members (fuel : nat) (s : str) (acc : list (str * value))
  : option (value * str) :=
  match fuel with
  | O => None
  | S fuel' =>
      match lstrip_by json_ws s with
      | q :: s1 =>
          if char_eqb q quote then
            match read_string s1 [] with
            | Some (k, s2) =>
                match lstrip_by json_ws s2 with
                | colon :: s3 =>
                    if char_eqb colon (chr ":") then
                      match parse_value fuel' s3 with
                      | Some (v, rest) =>
                          let acc' := dict_set k v acc in
                          match lstrip_by json_ws rest with
                          | c :: rest' =>
                              if char_eqb c (chr ",")
                              then parse_members fuel' rest' acc'
                              else if char_eqb c (chr "}")
                              then Some (VDict acc', rest')
                              else None
                          | [] => None
                          end
                      | None => None
                      end
                    else None
                | [] => None
                end
            | None => None
            end
          else None
      | [] => None
      end
  end.

Definition loads (s : str) : option value :=
  match parse_value (2 * List.length s + 2) s with
  | Some (v, rest) =>
      match lstrip_by json_ws rest with
      | [] => Some v
      | _ => None
      end
  | None => None
  end.

End AsciiRuntime.

(** The runtime of the examples: exact on ASCII text and on the JSON
    fragment above.  No example contains a float. *)
Definition ascii_runtime : PyRuntime := {|
  uni_isspace := AsciiRuntime.isspace;
  uni_decimal := AsciiRuntime.decimal;
  uni_isalnum := AsciiRuntime.isalnum;
  str_lower := List.map AsciiRuntime.lower_char;
  json_loads := AsciiRuntime.loads;
  float_repr := fun _ => lit "nan";
  str_repr := AsciiRuntime.plain_repr
|}.

(* ================================================================== *)
(** ** Positional lookups and the title / address fields *)

Module Extractor.

(** A step of a path: an [int], a [str], or anything else. *)
Inductive path_key : Type :=
| KInt (i : Z)
| KStr (k : str)
| KOther.

Fixpoint get_nested_value
  (current : value) (path : list path_key) (default : value) : value :=
  match path with
  | [] => current
  | key_or_index :: rest =>
      match key_or_index with
      | KInt i =>
          match current with
          | VList items =>
              if (0 <=? i)%Z && (i <? Z.of_nat (List.length items))%Z
              then get_nested_value (nth (Z.to_nat i) items VNull) rest default
              else default
          | _ => default
          end
      | KStr k =>
          match current with
          | VDict items =>
              match dict_get k items with
              | Some v => get_nested_value v rest default
              | None => default
              end
          | _ => default
          end
      | KOther => default
      end
  end.

(** [place_data_to_return] *)
Record place_data : Type := {
  title : option str;
  address : option str;
  image_urls : list str;
  place_url : str
}.

Section WithRuntime.
Context {R : PyRuntime}.

(** Lines 197-198: [title_val = get_nested_value(darray, [1])] and the
    test on it. *)
Definition extract_title (darray : value) : option str :=
  let title_val := get_nested_value darray [KInt 1] VNull in
  match title_val with
  | VStr s => if truthy title_val then Some (strip s) else None
  | _ => None
  end.

Definition str_truthy (s : str) : bool :=
  match s with [] => false | _ => true end.

(** Lines 201-212: [addr_list = get_nested_value(darray, [2])] and the
    three branches; [title] is [place_data_to_return["title"]] at that
    point. *)
Definition extract_address (title : option str) (darray : value)
  : option str :=
  let addr_list := get_nested_value darray [KInt 2] VNull in
  match addr_list with
  | VList parts =>
      if truthy addr_list then
        let address_parts :=
          List.map py_str (filter (fun part => negb (is_null part)) parts) in
        let cleaned_addr := strip (join (lit ", ") address_parts) in
        match title with
        | Some t =>
            if str_truthy t && startswith t cleaned_addr
            then Some (strip (lstrip_by (char_in (lit ", "))
                                (slice_from (List.length t) cleaned_addr)))
            else Some cleaned_addr
        | None => Some cleaned_addr
        end
      else None
  | _ =>
      if truthy addr_list then Some (strip (py_str addr_list)) else None
  end.

(** The path of the record block. *)
Definition darray_path : list path_key := [KInt 1; KInt 11; KInt 0; KInt 0].

(** The part of [extract_images_for_place] that follows the retry loop
    (lines 190-225): [if json_data_obj: ...]. *)
Definition process_payload (url : str) (json_data_obj : value) : place_data :=
  if truthy json_data_obj then
    let darray := get_nested_value json_data_obj darray_path VNull in
    let t := if truthy darray then extract_title darray else None in
    let a := if truthy darray then extract_address t darray else None in
    {| title := t; address := a;
       image_urls := image_urls_of json_data_obj; place_url := url |}
  else
    {| title := None; address := None; image_urls := []; place_url := url |}.

End WithRuntime.
End Extractor.
Export Extractor.

(* ================================================================== *)
(** ** Acquiring the payload: three attempts *)

Module Acquisition.

(** What the loop does to the outside: a call of [page.evaluate], or
    [asyncio.sleep(seconds)]. *)
Inductive event : Type :=
| Evaluate
| Sleep (seconds : Z).

Record acquired : Type := {
  json_data_obj : value;
  raw_json_data_str : option str;
  trace : list event
}.

(** The prefix the source tests for: [")]}'\n"]. *)
Definition security_prefix : str := lit ")]}'" ++ [10%N].

(** [raw[4:] if raw.startswith(")]}'\n") else raw] *)
Definition current_json_string (raw_json_data_str : str) : str :=
  if startswith security_prefix raw_json_data_str
  then slice_from 4 raw_json_data_str
  else raw_json_data_str.

Section WithRuntime.
Context {R : PyRuntime}.

(** Lines 155-178, [for attempt in range(3)]: [attempts] are the values
    of [attempt] still to run; [evaluate n] is what the call of
    [page.evaluate] in attempt [n] returns ([null] of the page is
    [VNull]).  Leaving the function without [retry] is the [break]. *)
Fixpoint attempt_loop
  (evaluate : nat -> value) (attempts : list nat) (st : acquired) : acquired :=
  match attempts with
  | [] => st
  | attempt :: later =>
      let evaluated_data := evaluate attempt in
      let st := {| json_data_obj := json_data_obj st;
                   raw_json_data_str := raw_json_data_str st;
                   trace := trace st ++ [Evaluate] |} in
      let retry (st : acquired) : acquired :=
        attempt_loop evaluate later
          (if (attempt <? 2)%nat
           then {| json_data_obj := json_data_obj st;
                   raw_json_data_str := raw_json_data_str st;
                   trace := trace st ++ [Sleep 3] |}
           else st) in
      if truthy evaluated_data then
        match evaluated_data with
        | VStr raw =>
            match json_loads (current_json_string raw) with
            | Some parsed =>
                {| json_data_obj := parsed;
                   raw_json_data_str := Some raw;
                   trace := trace st |}
            | None =>
                retry {| json_data_obj := VNull;
                         raw_json_data_str := Some raw;
                         trace := trace st |}
            end
        | _ =>
            {| json_data_obj := evaluated_data;
               raw_json_data_str := raw_json_data_str st;
               trace := trace st |}
        end
      else retry st
  end.

Definition acquire (evaluate : nat -> value) : acquired :=
  attempt_loop evaluate [0; 1; 2]%nat
    {| json_data_obj := VNull; raw_json_data_str := None; trace := [] |}.

(** [extract_images_for_place], from the retry loop on (the navigation
    before it is the collaborator's). *)
Definition extract_images_for_place (evaluate : nat -> value) (url : str)
  : place_data :=
  process_payload url (json_data_obj (acquire evaluate)).

End WithRuntime.
End Acquisition.
Export Acquisition.

(* ================================================================== *)
(** ** Downloading the images of one place *)

Module Downloader.

(** What the HTTP collaborator does for one request: [session.get] raises;
    or a response arrives with its status, its [Content-Type] header (if
    any) and its body; or a response arrives and reading its body raises
    after [partial] has been read.  The disk is taken to accept every
    write. *)
Inductive response : Type :=
| RaisesClientError
| RaisesTimeout
| RaisesOther
| Responds (status : Z) (content_type : option str) (body : list N)
| BreaksWhileReading (status : Z) (content_type : option str)
    (partial : list N).

(** [response.raise_for_status()] raises for a status of 400 and above. *)
Definition status_ok (status : Z) : bool := (status <? 400)%Z.

(** The file a task writes: path and content. *)
Definition file : Type := (str * list N)%type.

Record outcome : Type := {
  returned : bool;
  written : option file
}.

(** [f"{n:03d}"] for a counter. *)
Definition format_03d (n : nat) : str :=
  let digits := lit (NilZero.string_of_uint (Nat.to_uint n)) in
  repeat (chr "0") (3 - List.length digits) ++ digits.

(** [os.path.join(a, b)] for a relative [b], POSIX. *)
Definition path_join (a b : str) : str :=
  match rev a with
  | [] => b
  | last :: _ => if char_eqb last (chr "/") then a ++ b else a ++ lit "/" ++ b
  end.

Definition known_exts : list str :=
  [lit ".jpg"; lit ".jpeg"; lit ".png"; lit ".gif"; lit ".webp"].

Section WithRuntime.
Context {R : PyRuntime}.

(** The extension: from the content type, then from the URL, then JPEG. *)
Definition choose_ext (header : option str) (url : str) : str :=
  let content_type :=
    str_lower (match header with Some h => h | None => [] end) in
  if contains (lit "jpeg") content_type || contains (lit "jpg") content_type
  then lit ".jpg"
  else if contains (lit "png") content_type then lit ".png"
  else if contains (lit "gif") content_type then lit ".gif"
  else if contains (lit "webp") content_type then lit ".webp"
  else
    let url_path_part := after_last (chr "/") (before_first (chr "?") url) in
    if char_in url_path_part (chr ".") then
      let potential_ext :=
        lit "." ++ str_lower (after_last (chr ".") url_path_part) in
      if existsb (str_eqb potential_ext) known_exts
      then potential_ext
      else lit ".jpg"
    else lit ".jpg".

(** [download_image], lines 103-136: the three [except] clauses all fall
    through to [return False].  The URL without its size suffix only
    decides which request is sent, and the answer is [resp]. *)
Definition download_image
  (resp : response) (url folder_path : str) (image_counter : nat) : outcome :=
  match resp with
  | Responds status header body =>
      if status_ok status then
        let ext := choose_ext header url in
        let image_filename := lit "image_" ++ format_03d image_counter ++ ext in
        let filepath := path_join folder_path image_filename in
        {| returned := true; written := Some (filepath, body) |}
      else {| returned := false; written := None |}
  | BreaksWhileReading status header partial =>
      if status_ok status then
        let ext := choose_ext header url in
        let image_filename := lit "image_" ++ format_03d image_counter ++ ext in
        let filepath := path_join folder_path image_filename in
        {| returned := false; written := Some (filepath, partial) |}
      else {| returned := false; written := None |}
  | RaisesClientError | RaisesTimeout | RaisesOther =>
      {| returned := false; written := None |}
  end.

(** Lines 422-424, [for img_counter, img_url in
    enumerate(image_urls_to_dl)]: the task of each URL, with
    [img_counter + 1]. *)
Fixpoint download_tasks_from
  (img_counter : nat) (http : nat -> response) (folder : str)
  (image_urls_to_dl : list str) : list outcome :=
  match image_urls_to_dl with
  | [] => []
  | img_url :: rest =>
      download_image (http img_counter) img_url folder (img_counter + 1)
        :: download_tasks_from (S img_counter) http folder rest
  end.

Record batch : Type := {
  download_results : list bool;
  succeeded_count : nat;
  files_written : list file
}.

(** Lines 426-427, [await asyncio.gather] of the download tasks: the tasks finish in the order
    [completion] (positions in the list of tasks) and leave their files in
    that order; the results come back in the order of the tasks.
    [http i] is the collaborator's answer to the request of task [i]. *)
Definition gather_downloads
  (http : nat -> response) (folder : str) (image_urls_to_dl : list str)
  (completion : list nat) : batch :=
  let outcomes := download_tasks_from 0 http folder image_urls_to_dl in
  let results := List.map returned outcomes in
  {| download_results := results;
     succeeded_count := List.length (filter (fun r => r) results);
     files_written :=
       flat_map
         (fun i =>
            match nth_error outcomes i with
            | Some {| written := Some f |} => [f]
            | _ => []
            end)
         completion |}.

End WithRuntime.

(** A request fails: an exception, before or after the response arrives,
    or a status that is not a success. *)
Definition fails (resp : response) : bool :=
  match resp with
  | Responds status _ _ => negb (status_ok status)
  | _ => true
  end.

(** The response came with a success status and [body] is what was read
    of it. *)
Definition delivered (resp : response) (header : option str) (body : list N)
  : Prop :=
  exists status,
    status_ok status = true /\
    (resp = Responds status header body \/
     resp = BreaksWhileReading status header body).

End Downloader.
Export Downloader.

(* ================================================================== *)
(** ** Vocabulary of the properties *)

Module Vocabulary.

(** [occurs s v]: the string [s] is an element of a sequence or a value of
    a mapping somewhere inside [v], at any depth.  Keys are not
    occurrences, and neither is a payload that is itself a string. *)
Inductive occurs (s : str) : value -> Prop :=
| occurs_element : forall items,
    In (VStr s) items -> occurs s (VList items)
| occurs_value : forall items k,
    In (k, VStr s) items -> occurs s (VDict items)
| occurs_in_element : forall items v,
    In v items -> occurs s v -> occurs s (VList items)
| occurs_in_value : forall items k v,
    In (k, v) items -> occurs s v -> occurs s (VDict items).

(** The strings the miner meets, in the order of its traversal. *)
Fixpoint strings_of (v : value) : list str :=
  match v with
  | VList items =>
      flat_map
        (fun item => match item with VStr s => [s] | _ => strings_of item end)
        items
  | VDict items =>
      flat_map
        (fun kv =>
           match snd kv with VStr s => [s] | _ => strings_of (snd kv) end)
        items
  | _ => []
  end.


(** Every key of every mapping replaced by its image under [f]. *)
Fixpoint rekey (f : str -> str) (v : value) : value :=
  match v with
  | VList items => VList (List.map (rekey f) items)
  | VDict items =>
      VDict (List.map (fun kv => (f (fst kv), rekey f (snd kv))) items)
  | _ => v
  end.

Definition str_lt (a b : str) : Prop := str_ltb a b = true.
Definition str_le (a b : str) : Prop := str_leb a b = true.

(** [reaches data path v]: following [path] from [data] succeeds at every
    step and ends on [v]. *)
Inductive reaches : value -> list path_key -> value -> Prop :=
| reaches_here : forall v, reaches v [] v
| reaches_index : forall items i path v w,
    (0 <= i)%Z ->
    nth_error items (Z.to_nat i) = Some v ->
    reaches v path w ->
    reaches (VList items) (KInt i :: path) w
| reaches_key : forall items k path v w,
    dict_get k items = Some v ->
    reaches v path w ->
    reaches (VDict items) (KStr k :: path) w.

(** The step [key] cannot be taken from [current]: wrong type of
    container, index out of bounds, key missing, or a key that is neither
    an [int] nor a [str]. *)
Definition step_fails (current : value) (key : path_key) : Prop :=
  match key with
  | KInt i =>
      match current with
      | VList items => (i < 0)%Z \/ (Z.of_nat (List.length items) <= i)%Z
      | _ => True
      end
  | KStr k =>
      match current with
      | VDict items => dict_get k items = None
      | _ => True
      end
  | KOther => True
  end.

(** What one attempt of the acquisition loop yields: the payload, when
    the evaluated value is truthy and is either structured already or a
    string that parses once the prefix is off; nothing otherwise. *)
Definition yields {R : PyRuntime} (evaluated_data : value) : option value :=
  if truthy evaluated_data then
    match evaluated_data with
    | VStr raw => json_loads (current_json_string raw)
    | _ => Some evaluated_data
    end
  else None.

(** [n] calls of [page.evaluate] with a sleep of 3 seconds between
    consecutive ones. *)
Fixpoint attempts_trace (n : nat) : list event :=
  match n with
  | O => []
  | S O => [Evaluate]
  | S n' => Evaluate :: Sleep 3 :: attempts_trace n'
  end.

Definition count_evaluate (t : list event) : nat :=
  List.length (filter (fun e => match e with Evaluate => true | _ => false end) t).

Definition sleeps (t : list event) : list Z :=
  flat_map (fun e => match e with Sleep n => [n] | Evaluate => [] end) t.

(** The set after the miner has met [strings], in that order. *)
Definition add_all {R : PyRuntime} (strings : list str) (found : urlset) : urlset :=
  fold_left (fun acc s => visit_str s acc) strings found.

(** [s] neither starts nor ends with white space. *)
Definition stripped {R : PyRuntime} (s : str) : Prop :=
  (forall c t, s = c :: t -> uni_isspace c = false) /\
  (forall c t, s = t ++ [c] -> uni_isspace c = false).

(** The parts of an address that are not [None], stringified, joined
    and stripped. *)
Definition joined_parts {R : PyRuntime} (parts : list value) : str :=
  strip (join (lit ", ")
           (List.map py_str (filter (fun part => negb (is_null part)) parts))).

(** How many of the requests of tasks [from], ..., [from + n - 1] fail. *)
Definition failed_count (http : nat -> response) (from n : nat) : nat :=
  List.length (filter (fun i => fails (http i)) (seq from n)).

(** The number a run of ASCII digits stands for. *)
Definition digits_fold (s : str) (acc : nat) : nat :=
  fold_left (fun a c => (10 * a + (N.to_nat c - 48))%nat) s acc.

Definition is_ascii_digit (c : char) : bool := in_range "0" "9" c.

(** The file of the URL at [position] (from 0) of the list. *)
Definition image_path {R : PyRuntime} (folder : str) (position : nat) (header : option str)
  (url : str) : str :=
  path_join folder
    (lit "image_" ++ format_03d (position + 1) ++ choose_ext header url).

End Vocabulary.
Export Vocabulary.

(* ================================================================== *)
(** ** Sample inputs *)

Module Samples.

Definition photo_relative : str :=
  lit "//lh3.googleusercontent.com/p/AF1QipMx=w408-h306-k-no".

Definition photo_absolute : str :=
  lit "https://lh3.googleusercontent.com/p/AF1QipMx=w408-h306-k-no".

Definition icon : str := lit "https://lh3.googleusercontent.com/p/AF1QipMx=s32".

Definition avatar : str :=
  lit "https://lh3.googleusercontent.com/profile/picture/0/s64".

(** The same photo three times, in both forms and at three depths, with
    an icon, a small avatar and a string that is no image URL. *)
Definition payload : value :=
  VList
    [VNull;
     VDict [(lit "cover", VStr photo_relative);
            (lit "icon", VStr icon);
            (photo_absolute, VInt 7)];
     VList [VStr photo_absolute;
            VList [VDict [(lit "again", VStr photo_relative)];
                   VStr avatar;
                   VStr (lit "https://example.com/a.jpg")]]].

Definition place : str := lit "https://www.google.com/maps/place/X".

End Samples.

Module RecordSamples.

(** A payload with the record block at [[1][11][0][0]]. *)
Definition around (darray : value) : value :=
  VList [VNull; VList (repeat VNull 11 ++ [VList [VList [darray]]])].

Definition cafe : str := lit "Caf" ++ [233%N] ++ lit " De Paris".

Definition cafe_block : value :=
  VList [VNull; VStr cafe; VList [VStr cafe; VStr (lit "12 Main St")]].

Definition untitled_block : value :=
  VList [VInt 1; VNull; VList [VStr (lit "12 Main St"); VStr (lit "Berkeley")]].

Definition zero_address_block : value :=
  VList [VNull; VStr (lit "Kipriakon"); VInt 0].

Definition text_address_block : value :=
  VList [VNull; VStr (lit "Kipriakon"); VStr (lit " 5 Elm St ")].

End RecordSamples.

Module AcquisitionSamples.

(** Nothing on the first two calls, then the payload as a prefixed
    string. *)
Definition late_string (attempt : nat) : value :=
  match attempt with
  | 2%nat => VStr (security_prefix ++ lit "[null, [1, 2]]")
  | _ => VNull
  end.

(** An empty list on the first call, a payload afterwards. *)
Definition empty_then_data (attempt : nat) : value :=
  match attempt with
  | O => VList []
  | _ => VList [VInt 1]
  end.

End AcquisitionSamples.

Module DownloadSamples.

(** Five requests: the second times out and the fourth is refused. *)
Definition http (task : nat) : response :=
  match task with
  | 1%nat => RaisesTimeout
  | 3%nat => Responds 404 None []
  | 2%nat => Responds 200 None [71%N; 73%N; 70%N]
  | _ => Responds 200 (Some (lit "image/PNG")) [137%N; 80%N]
  end.

Definition urls : list str :=
  [lit "https://lh3.googleusercontent.com/p/a";
   lit "https://lh3.googleusercontent.com/p/b";
   lit "https://lh3.googleusercontent.com/p/c.GIF?x=1";
   lit "https://lh3.googleusercontent.com/p/d";
   lit "https://lh3.googleusercontent.com/p/e"].

Definition folder : str := lit "downloaded_google_maps_images/Kipriakon".

Definition last_first : list nat := [4; 3; 2; 1; 0]%nat.

End DownloadSamples.

(* ================================================================== *)
(** ** The rest of the program: names, links, places, request URLs *)

(** [unicodedata.normalize('NFKD', name)] *)
Class Unicodedata : Type := {
  normalize_NFKD : str -> str
}.

Module Sanitizer.

(** [re.sub] of a pattern [[class]+] (or [cc+] for one character [c]) by
    one character: every maximal run of characters of the class becomes
    [rep].  [in_run] says that the character before was of the class. *)
Fixpoint sub_runs (f : char -> bool) (rep : char) (in_run : bool) (s : str)
  : str :=
  match s with
  | [] => []
  | c :: s' =>
      if f c
      then if in_run
           then sub_runs f rep true s'
           else rep :: sub_runs f rep true s'
      else c :: sub_runs f rep false s'
  end.

(** The characters of the class of line 43 other than its [\s]: slash,
    backslash, colon, star, question mark, double quote, angle brackets,
    bar, semicolon, comma and ampersand. *)
Definition reserved (c : char) : bool :=
  char_in (lit "/\:*?<>|;,&") c || char_eqb c 34%N.

(** Two neighbours in [s] are both [c]. *)
Fixpoint adjacent (c : char) (s : str) : bool :=
  match s with
  | x :: (y :: _) as t => (char_eqb c x && char_eqb c y) || adjacent c t
  | _ => false
  end.

(** [s[:k]] *)
Definition slice_to (k : Z) (s : str) : str :=
  if (0 <=? k)%Z
  then firstn (Z.to_nat k) s
  else firstn (List.length s - Z.to_nat (- k)) s.

Section WithRuntime.
Context {R : PyRuntime} {U : Unicodedata}.

(** The class of line 43: white space and the reserved characters. *)
Definition separator (c : char) : bool := uni_isspace c || reserved c.

(** [[^\w\-_]]: what the second substitution deletes is the rest. *)
Definition kept (c : char) : bool :=
  is_word c || char_eqb c (chr "-") || char_eqb c (chr "_").

(** Lines 38-50. *)
Definition sanitize_filename (name : str) (max_length : Z) : str :=
  let name :=
    if negb (str_truthy name) || negb (str_truthy (strip name))
    then lit "unknown_place"
    else name in
  let name := filter (fun c => N.ltb c 128) (normalize_NFKD name) in
  let name := sub_runs separator (chr "_") false name in
  let name := filter kept name in
  let name := sub_runs (char_eqb (chr "_")) (chr "_") false name in
  let name := sub_runs (char_eqb (chr "-")) (chr "-") false name in
  let name := strip_by (char_in (lit "_-")) name in
  let name := if negb (str_truthy name)
              then lit "sanitized_unknown_place"
              else name in
  slice_to max_length name.

End WithRuntime.
End Sanitizer.
Export Sanitizer.

Module Links.

(** [MAX_PLACES_TO_PROCESS] *)
Definition MAX_PLACES_TO_PROCESS : nat := 3.

(** A link of the results feed, as the loop reads it: one of the three
    reads raises, or the [href], the [aria-label] and the inner text come
    back ([None] where the attribute is not there). *)
Inductive link_el : Type :=
| LinkRaises
| Link (href aria_label inner_text : option str).

Definition or_empty (o : option str) : str :=
  match o with Some s => s | None => [] end.

Record link_state : Type := {
  place_urls_to_process : list str;
  unique_hrefs : list str;
  processed_links_count : nat
}.

Section WithRuntime.
Context {R : PyRuntime}.

(** Lines 323-328: the URL a link stands for, if it is taken. *)
Definition full_url_of (el : link_el) : option str :=
  match el with
  | LinkRaises => None
  | Link href aria_label inner_text =>
      let aria_label := or_empty aria_label in
      let inner_text := strip (or_empty inner_text) in
      match href with
      | Some href =>
          if str_truthy href && (str_truthy aria_label || str_truthy inner_text)
          then Some (if startswith (lit "http") href
                     then href
                     else lit "https://www.google.com" ++ href)
          else None
      | None => None
      end
  end.

(** Lines 318-338, [for link_el in place_link_elements]. *)
Fixpoint links_loop (place_link_elements : list link_el) (st : link_state)
  : link_state :=
  match place_link_elements with
  | [] => st
  | link_el :: later =>
      if (MAX_PLACES_TO_PROCESS <=? processed_links_count st)%nat then st
      else
        match full_url_of link_el with
        | Some full_url =>
            if str_truthy full_url &&
               negb (set_mem str_eq_dec full_url (unique_hrefs st))
            then
              links_loop later
                {| place_urls_to_process := place_urls_to_process st ++ [full_url];
                   unique_hrefs := set_add str_eq_dec full_url (unique_hrefs st);
                   processed_links_count := processed_links_count st + 1 |}
            else links_loop later st
        | None => links_loop later st
        end
  end.

Definition collect_place_urls (place_link_elements : list link_el)
  : list str :=
  place_urls_to_process
    (links_loop place_link_elements
       {| place_urls_to_process := []; unique_hrefs := [];
          processed_links_count := 0 |}).

End WithRuntime.

(** The first occurrences of the members of [l] that are not in [seen]. *)
Fixpoint first_occurrences (seen : list str) (l : list str) : list str :=
  match l with
  | [] => []
  | x :: l' =>
      if set_mem str_eq_dec x seen
      then first_occurrences seen l'
      else x :: first_occurrences (set_add str_eq_dec x seen) l'
  end.

(** The URLs of the links that are taken, in the order of the feed. *)
Definition candidates {R : PyRuntime} (els : list link_el) : list str :=
  flat_map (fun el => match full_url_of el with
                      | Some u => [u]
                      | None => []
                      end) els.

End Links.
Export Links.

Module Places.




Section WithRuntime.
Context {R : PyRuntime}.




End WithRuntime.




End Places.
Export Places.

Module RequestUrl.

Definition ascii_alnum (c : char) : bool :=
  in_range "a" "z" c || in_range "A" "Z" c || in_range "0" "9" c.

Section WithRuntime.
Context {R : PyRuntime}.

(** [=[swh]\d+(-[wh]\d+)?(-[a-zA-Z0-9]+)?], the pattern of line 105
    without its [$]. *)
Definition size_suffix : regex :=
  Seq (Chr "=")
    (Seq (Sym (char_in (lit "swh")))
       (Seq (Plus (Sym is_digit))
          (Seq (Opt (Seq (Chr "-")
                       (Seq (Sym (char_in (lit "wh"))) (Plus (Sym is_digit)))))
             (Opt (Seq (Chr "-") (Plus (Sym ascii_alnum))))))).

(** [re.sub(pattern, '', url)] with the [$]: the match is tried at every
    position from the left and has to end where the string ends, or just
    before a newline that ends it; what matches is taken out. *)
Fixpoint url_no_size (url : str) : str :=
  if fullmatch size_suffix url then []
  else if fullmatch (Seq size_suffix (Sym (char_eqb 10%N))) url then [10%N]
  else
    match url with
    | [] => []
    | c :: rest => c :: url_no_size rest
    end.

End WithRuntime.
End RequestUrl.
Export RequestUrl.

Module MoreSamples.

Definition ascii_nfkd : Unicodedata := {| normalize_NFKD := fun s => s |}.

Definition feed : list link_el :=
  [Link (Some (lit "/maps/place/A")) (Some (lit "A")) None;
   Link (Some (lit "https://www.google.com/maps/place/A")) None
     (Some (lit " A "));
   LinkRaises;
   Link (Some (lit "/maps/place/B")) None (Some (lit "  "));
   Link (Some (lit "/maps/place/C")) (Some (lit "C")) None;
   Link (Some (lit "/maps/place/D")) (Some (lit "D")) None;
   Link (Some (lit "/maps/place/E")) (Some (lit "E")) None].


End MoreSamples.

(* ================================================================== *)
(** * Facts *)

(** ** Strings *)

Section StringFacts.

Lemma char_eqb_eq (a b : char) : char_eqb a b = true <-> a = b.
Proof. apply N.eqb_eq. Qed.

Lemma str_eqb_eq (a : str) : forall b, str_eqb a b = true <-> a = b.
Proof.
  induction a as [| x a IH]; intros [| y b]; simpl; split; intro H;
    try discriminate; try reflexivity.
  - apply andb_true_iff in H as [Hx Ha].
    apply char_eqb_eq in Hx. apply IH in Ha. congruence.
  - injection H as -> ->. apply andb_true_iff; split.
    + apply char_eqb_eq; reflexivity.
    + apply IH; reflexivity.
Qed.

Lemma startswith_app (p : str) : forall s,
  startswith p s = true <-> exists t, s = p ++ t.
Proof.
  induction p as [| x p IH]; intro s; simpl.
  - split; [intros _; exists s; reflexivity | reflexivity].
  - destruct s as [| y s]; split.
    + discriminate.
    + intros [t Ht]; discriminate.
    + intro H. apply andb_true_iff in H as [Hx Hp].
      apply char_eqb_eq in Hx. apply IH in Hp as [t ->].
      exists t. subst. reflexivity.
    + intros [t Ht]. injection Ht as -> ->.
      apply andb_true_iff; split.
      * apply char_eqb_eq; reflexivity.
      * apply IH. exists t; reflexivity.
Qed.

Lemma lstrip_by_stop (f : char -> bool) (c : char) (s : str) :
  f c = false -> lstrip_by f (c :: s) = c :: s.
Proof. intro H. simpl. rewrite H. reflexivity. Qed.

(** Stripping leaves a string alone when neither end can be stripped. *)
Lemma strip_by_ends (f : char -> bool) (c : char) (s : str) (d : char) :
  f c = false -> f d = false -> strip_by f (c :: s ++ [d]) = c :: s ++ [d].
Proof.
  intros Hc Hd. unfold strip_by, rstrip_by.
  rewrite lstrip_by_stop by exact Hc.
  change (c :: s ++ [d]) with ((c :: s) ++ [d]).
  rewrite rev_app_distr.
  change (rev [d] ++ rev (c :: s)) with (d :: rev (c :: s)).
  rewrite lstrip_by_stop by exact Hd.
  change (d :: rev (c :: s)) with ([d] ++ rev (c :: s)).
  rewrite rev_app_distr, rev_involutive. reflexivity.
Qed.

Lemma str_ltb_irrefl (a : str) : str_ltb a a = false.
Proof.
  induction a as [| x a IH]; simpl; [reflexivity |].
  rewrite N.ltb_irrefl. assumption.
Qed.

Lemma str_ltb_asym (a : str) : forall b,
  str_ltb a b = true -> str_ltb b a = false.
Proof.
  induction a as [| x a IH]; intros [| y b]; simpl; try congruence.
  destruct (N.ltb_spec x y), (N.ltb_spec y x); try congruence; try lia.
  apply IH.
Qed.

Lemma str_ltb_trans (a : str) : forall b c,
  str_ltb a b = true -> str_ltb b c = true -> str_ltb a c = true.
Proof.
  induction a as [| x a IH]; intros [| y b] [| z c]; simpl; try congruence.
  destruct (N.ltb_spec x y), (N.ltb_spec y x), (N.ltb_spec y z),
    (N.ltb_spec z y), (N.ltb_spec x z), (N.ltb_spec z x);
    try congruence; try lia.
  apply IH.
Qed.

Lemma str_ltb_total (a : str) : forall b,
  str_ltb a b = false -> str_ltb b a = false -> a = b.
Proof.
  induction a as [| x a IH]; intros [| y b]; simpl; try congruence.
  destruct (N.ltb_spec x y), (N.ltb_spec y x); try congruence; try lia.
  intros Ha Hb. assert (x = y) by lia. subst. f_equal. apply IH; assumption.
Qed.

Lemma str_le_refl (a : str) : str_le a a.
Proof. unfold str_le, str_leb. rewrite str_ltb_irrefl. reflexivity. Qed.

Lemma str_le_antisym (a b : str) : str_le a b -> str_le b a -> a = b.
Proof.
  unfold str_le, str_leb. intros H1 H2.
  apply negb_true_iff in H1, H2. apply str_ltb_total; assumption.
Qed.

Lemma str_le_trans (a b c : str) : str_le a b -> str_le b c -> str_le a c.
Proof.
  unfold str_le, str_leb. intros H1 H2.
  apply negb_true_iff in H1, H2. apply negb_true_iff.
  destruct (str_ltb c a) eqn:Hca; [| reflexivity].
  destruct (str_ltb a b) eqn:Hab.
  - rewrite (str_ltb_trans _ _ _ Hca Hab) in H2. discriminate.
  - assert (a = b) by (apply str_ltb_total; assumption). subst. congruence.
Qed.

Lemma str_le_total (a b : str) : str_le a b \/ str_le b a.
Proof.
  unfold str_le, str_leb.
  destruct (str_ltb b a) eqn:Hba; [right | left; reflexivity].
  rewrite (str_ltb_asym _ _ Hba). reflexivity.
Qed.

End StringFacts.

(** ** The language of a pattern and the matcher *)

Section RegexFacts.

Create HintDb re.
#[local] Hint Constructors matches : re.

Lemma nullable_matches (r : regex) : nullable r = true <-> matches r [].
Proof.
  induction r; simpl; split; intro H;
    try discriminate; try solve [auto with re].
  - inversion H.
  - inversion H.
  - apply andb_true_iff in H as [H1 H2].
    change (@nil char) with (@nil char ++ []).
    constructor; [apply IHr1 | apply IHr2]; assumption.
  - inversion H as [| | r1' r2' s1 s2 M1 M2 | | | |]; subst.
    apply app_eq_nil in H2 as [-> ->].
    apply andb_true_iff; split; [apply IHr1 | apply IHr2]; assumption.
  - apply orb_true_iff in H as [H | H];
      [apply MAltL, IHr1 | apply MAltR, IHr2]; assumption.
  - apply orb_true_iff.
    inversion H; subst; [left; apply IHr1 | right; apply IHr2]; assumption.
Qed.

(** A match of [Star r] on a non-empty string starts with a non-empty
    match of [r]. *)
Lemma star_cons_inv (r : regex) (c : char) (s : str) :
  matches (Star r) (c :: s) ->
  exists s1 s2, s = s1 ++ s2 /\ matches r (c :: s1) /\ matches (Star r) s2.
Proof.
  intro H. remember (Star r) as r' eqn:Er. remember (c :: s) as t eqn:Et.
  induction H; try discriminate.
  injection Er as ->.
  destruct s1 as [| x s1'].
  - simpl in Et. apply IHmatches2; auto.
  - simpl in Et. injection Et as -> <-.
    exists s1', s2. auto.
Qed.

Lemma deriv_matches (r : regex) :
  forall c s, matches (deriv c r) s <-> matches r (c :: s).
Proof.
  induction r; intros c s; simpl.
  - split; intro H; inversion H.
  - split; intro H; inversion H.
  - destruct (p c) eqn:Ep; split; intro H.
    + inversion H; subst. constructor; assumption.
    + inversion H; subst. constructor.
    + inversion H.
    + inversion H; subst. congruence.
  - destruct (nullable r1) eqn:En; split; intro H.
    + inversion H as [| | | ? ? ? M | ? ? ? M | |]; subst.
      * inversion M as [| | ? ? s1 s2 M1 M2 | | | |]; subst.
        change (c :: s1 ++ s2) with ((c :: s1) ++ s2).
        constructor; [apply IHr1 |]; assumption.
      * change (c :: s) with ([] ++ c :: s).
        constructor; [apply nullable_matches | apply IHr2]; assumption.
    + inversion H as [| | ? ? s1 s2 M1 M2 E1 E2 | | | |]; subst.
      destruct s1 as [| x s1'].
      * simpl in E2; subst. apply MAltR, IHr2; assumption.
      * simpl in E2. injection E2 as -> <-.
        apply MAltL. constructor; [apply IHr1 |]; assumption.
    + inversion H as [| | ? ? s1 s2 M1 M2 | | | |]; subst.
      change (c :: s1 ++ s2) with ((c :: s1) ++ s2).
      constructor; [apply IHr1 |]; assumption.
    + inversion H as [| | ? ? s1 s2 M1 M2 E1 E2 | | | |]; subst.
      destruct s1 as [| x s1'].
      * apply nullable_matches in M1. congruence.
      * simpl in E2. injection E2 as -> <-.
        constructor; [apply IHr1 |]; assumption.
  - split; intro H.
    + inversion H; subst;
        [apply MAltL, IHr1 | apply MAltR, IHr2]; assumption.
    + inversion H; subst;
        [apply MAltL, IHr1 | apply MAltR, IHr2]; assumption.
  - split; intro H.
    + inversion H as [| | ? ? s1 s2 M1 M2 | | | |]; subst.
      change (c :: s1 ++ s2) with ((c :: s1) ++ s2).
      constructor; [apply IHr |]; assumption.
    + apply star_cons_inv in H as (s1 & s2 & -> & M1 & M2).
      constructor; [apply IHr |]; assumption.
Qed.

Lemma fullmatch_matches (s : str) :
  forall r, fullmatch r s = true <-> matches r s.
Proof.
  induction s as [| c s IH]; intro r; simpl.
  - apply nullable_matches.
  - rewrite IH. apply deriv_matches.
Qed.

End RegexFacts.

(** ** Sorting by the string order *)

Section SortFacts.

Lemma insert_sorted_perm (x : str) (l : list str) :
  Permutation (insert_sorted x l) (x :: l).
Proof.
  induction l as [| y l IH]; simpl; [apply Permutation_refl |].
  destruct (str_leb x y); [apply Permutation_refl |].
  eapply Permutation_trans; [apply perm_skip, IH | apply perm_swap].
Qed.

Lemma sorted_perm (l : list str) : Permutation (sorted l) l.
Proof.
  induction l as [| x l IH]; simpl; [constructor |].
  eapply Permutation_trans; [apply insert_sorted_perm |].
  apply perm_skip, IH.
Qed.

Lemma insert_sorted_keeps (x : str) (l : list str) :
  StronglySorted str_le l -> StronglySorted str_le (insert_sorted x l).
Proof.
  induction 1 as [| y l Hs IH Hall]; simpl.
  - repeat constructor.
  - destruct (str_leb x y) eqn:Hxy.
    + constructor; [constructor; assumption |].
      constructor; [exact Hxy |].
      eapply Forall_impl; [| exact Hall].
      intros z Hz. eapply str_le_trans; [exact Hxy | exact Hz].
    + constructor; [exact IH |].
      assert (Hyx : str_le y x).
      { destruct (str_le_total x y) as [H | H]; [| exact H].
        unfold str_le in H. congruence. }
      eapply Permutation_Forall;
        [apply Permutation_sym, insert_sorted_perm |].
      constructor; assumption.
Qed.

Lemma sorted_is_sorted (l : list str) : StronglySorted str_le (sorted l).
Proof.
  induction l as [| x l IH]; simpl; [constructor |].
  apply insert_sorted_keeps, IH.
Qed.

(** A sorted list is determined by its members. *)
Lemma sorted_unique (l1 : list str) : forall l2,
  StronglySorted str_le l1 -> StronglySorted str_le l2 ->
  Permutation l1 l2 -> l1 = l2.
Proof.
  induction l1 as [| x l1 IH]; intros l2 S1 S2 P.
  - apply Permutation_nil in P. congruence.
  - destruct l2 as [| y l2].
    + apply Permutation_sym, Permutation_nil in P. discriminate.
    + inversion S1 as [| ? ? S1' A1]; subst.
      inversion S2 as [| ? ? S2' A2]; subst.
      assert (Hxy : x = y).
      { assert (Hx : In x (y :: l2))
          by (eapply Permutation_in; [exact P | left; reflexivity]).
        assert (Hy : In y (x :: l1))
          by (eapply Permutation_in;
              [apply Permutation_sym; exact P | left; reflexivity]).
        destruct Hx as [-> | Hx]; [reflexivity |].
        destruct Hy as [-> | Hy]; [reflexivity |].
        rewrite Forall_forall in A1, A2.
        apply str_le_antisym; [apply A1 | apply A2]; assumption. }
      subst y. f_equal.
      apply IH; try assumption.
      eapply Permutation_cons_inv; exact P.
Qed.

Lemma sorted_strict (l : list str) :
  NoDup l -> StronglySorted str_le l -> StronglySorted str_lt l.
Proof.
  intros ND S. induction S as [| x l S IH A]; [constructor |].
  inversion ND as [| ? ? Hnin ND']; subst.
  constructor; [apply IH; assumption |].
  rewrite Forall_forall in *. intros y Hy.
  specialize (A y Hy). unfold str_le, str_leb in A. unfold str_lt.
  apply negb_true_iff in A.
  destruct (str_ltb x y) eqn:Hxy; [reflexivity |].
  assert (x = y) by (apply str_ltb_total; assumption).
  subst. contradiction.
Qed.

End SortFacts.

(** ** The miner as a fold over the strings it meets *)

Section MinerFacts.
Context {R : PyRuntime}.


Lemma find_as_fold (d : value) :
  forall found,
    find_image_urls_recursively d found = add_all (strings_of d) found.
Proof.
  unfold add_all.
  induction d as [| b | z | f | s | items IH | items IH] using value_tree_ind;
    intro found; try reflexivity.
  - simpl. revert found.
    induction IH as [| item rest Hitem _ IHrest]; intro found;
      [reflexivity |].
    simpl flat_map. rewrite fold_left_app, <- IHrest. f_equal.
    destruct item; try reflexivity; apply Hitem.
  - simpl. revert found.
    induction IH as [| [k v] rest Hitem _ IHrest]; intro found;
      [reflexivity |].
    simpl flat_map. rewrite fold_left_app, <- IHrest. f_equal.
    simpl in Hitem. destruct v; try reflexivity; apply Hitem.
Qed.

Lemma add_all_In (strings : list str) :
  forall found u,
    In u (add_all strings found) <->
    In u found \/ exists s, In s strings /\ classify s = Some u.
Proof.
  unfold add_all.
  induction strings as [| s strings IH]; intros found u; simpl.
  - split; [auto | intros [H | (s & [] & _)]; exact H].
  - rewrite IH. unfold visit_str, set_add_url.
    destruct (classify s) as [v |] eqn:Hs.
    + rewrite set_add_iff. split.
      * intros [[-> | H] | (s' & Hin & Hc)]; eauto 6.
      * intros [H | (s' & [<- | Hin] & Hc)]; eauto 6.
        left; left. congruence.
    + split.
      * intros [H | (s' & Hin & Hc)]; eauto 6.
      * intros [H | (s' & [<- | Hin] & Hc)]; eauto 6. congruence.
Qed.

Lemma add_all_NoDup (strings : list str) :
  forall found, NoDup found -> NoDup (add_all strings found).
Proof.
  unfold add_all.
  induction strings as [| s strings IH]; intros found ND; simpl;
    [exact ND |].
  apply IH. unfold visit_str, set_add_url.
  destruct (classify s); [apply set_add_nodup |]; exact ND.
Qed.


Lemma occurs_strings_of (s : str) (d : value) :
  occurs s d <-> In s (strings_of d).
Proof.
  split.
  - induction 1 as [items Hin | items k Hin
                   | items v Hin _ IH | items k v Hin _ IH]; simpl;
      apply in_flat_map.
    + exists (VStr s). split; [exact Hin | left; reflexivity].
    + exists (k, VStr s). split; [exact Hin | left; reflexivity].
    + exists v. split; [exact Hin |].
      destruct v; try exact IH. simpl in IH. contradiction.
    + exists (k, v). split; [exact Hin |].
      simpl. destruct v; try exact IH. simpl in IH. contradiction.
  - induction d as [| b | z | f | t | items IH | items IH]
      using value_tree_ind; simpl; try contradiction.
    + intro H. apply in_flat_map in H as (item & Hin & Hs).
      rewrite Forall_forall in IH.
      destruct item; try (eapply occurs_in_element; [exact Hin |];
                          apply IH; [exact Hin | exact Hs]).
      destruct Hs as [<- | []]. apply occurs_element; exact Hin.
    + intro H. apply in_flat_map in H as ([k v] & Hin & Hs).
      rewrite Forall_forall in IH. simpl in Hs.
      destruct v; try (eapply occurs_in_value; [exact Hin |];
                       apply (IH _ Hin); exact Hs).
      destruct Hs as [<- | []]. eapply occurs_value; exact Hin.
Qed.

Lemma mine_In (d : value) (u : str) :
  In u (mine d) <-> exists s, occurs s d /\ classify s = Some u.
Proof.
  unfold mine. rewrite find_as_fold, add_all_In. split.
  - intros [[] | (s & Hin & Hc)].
    exists s. split; [apply occurs_strings_of |]; assumption.
  - intros (s & Ho & Hc). right.
    exists s. split; [apply occurs_strings_of |]; assumption.
Qed.

Lemma mine_NoDup (d : value) : NoDup (mine d).
Proof.
  unfold mine. rewrite find_as_fold. apply add_all_NoDup. constructor.
Qed.

Lemma image_urls_of_In (d : value) (u : str) :
  In u (image_urls_of d) <-> exists s, occurs s d /\ classify s = Some u.
Proof.
  rewrite <- mine_In. unfold image_urls_of. split; intro H.
  - eapply Permutation_in; [apply sorted_perm | exact H].
  - eapply Permutation_in; [apply Permutation_sym, sorted_perm | exact H].
Qed.

Lemma image_urls_of_NoDup (d : value) : NoDup (image_urls_of d).
Proof.
  unfold image_urls_of.
  eapply Permutation_NoDup; [apply Permutation_sym, sorted_perm |].
  apply mine_NoDup.
Qed.

Lemma image_urls_of_sorted (d : value) :
  StronglySorted str_lt (image_urls_of d).
Proof.
  apply sorted_strict; [apply image_urls_of_NoDup |].
  apply sorted_is_sorted.
Qed.

(** The list depends only on which URLs were accepted. *)
Lemma image_urls_of_ext (d d' : value) :
  (forall u, In u (mine d) <-> In u (mine d')) ->
  image_urls_of d = image_urls_of d'.
Proof.
  intro H. apply sorted_unique; try apply sorted_is_sorted.
  apply NoDup_Permutation; try apply image_urls_of_NoDup.
  intro u. rewrite !image_urls_of_In, <- !mine_In. apply H.
Qed.

End MinerFacts.

(** ** The host pattern and the protocol-relative form *)

Section HostPattern.

Lemma Lit_matches (w : string) : forall s, matches (Lit w) s -> s = lit w.
Proof.
  induction w as [| a w IH]; intros s H; simpl in H.
  - inversion H. reflexivity.
  - inversion H as [| | ? ? s1 s2 M1 M2 | | | |]; subst.
    inversion M1 as [| ? c Hc | | | | |]; subst.
    apply char_eqb_eq in Hc. subst c.
    rewrite (IH _ M2). reflexivity.
Qed.

Lemma matches_Lit (w : string) : matches (Lit w) (lit w).
Proof.
  induction w as [| a w IH]; simpl; [constructor |].
  change (lit (String a w)) with ([chr a] ++ lit w).
  constructor; [| exact IH].
  constructor. apply char_eqb_eq. reflexivity.
Qed.

Lemma scheme_matches (s : str) :
  matches scheme s -> s = lit "http:" \/ s = lit "https:".
Proof.
  unfold scheme. intro H.
  inversion H as [| | ? ? s1 s2 M1 M2 | | | |]; subst.
  apply (Lit_matches "http") in M1. subst s1.
  inversion M2 as [| | ? ? s3 s4 M3 M4 | | | |]; subst.
  inversion M4 as [| ? c Hc | | | | |]; subst.
  apply char_eqb_eq in Hc. subst c.
  inversion M3 as [| | | ? ? ? M | ? ? ? M | |]; subst.
  - inversion M as [| ? c Hc | | | | |]; subst.
    apply char_eqb_eq in Hc. subst c. right. reflexivity.
  - inversion M. left. reflexivity.
Qed.

Lemma host_and_path_slashes (s : str) :
  matches host_and_path s -> exists t, s = lit "//" ++ t.
Proof.
  unfold host_and_path. intro H.
  inversion H as [| | ? ? s1 s2 M1 M2 | | | |]; subst.
  apply (Lit_matches "//") in M1. subst s1. exists s2. reflexivity.
Qed.

(** A protocol-relative string matches exactly when its absolute form
    does. *)
Lemma fullmatch_protocol_relative (t : str) :
  fullmatch IMAGE_HOSTS_REGEX (lit "//" ++ t)
  = fullmatch IMAGE_HOSTS_REGEX (lit "https:" ++ lit "//" ++ t).
Proof.
  apply eq_true_iff_eq. rewrite !fullmatch_matches.
  unfold IMAGE_HOSTS_REGEX, Opt. split; intro H.
  - inversion H as [| | ? ? s1 s2 M1 M2 E1 E2 | | | |]; subst.
    inversion M1 as [| | | ? ? ? M | ? ? ? M | |]; subst.
    + apply scheme_matches in M. destruct M; subst; discriminate.
    + inversion M; subst. simpl in E2. subst s2.
      constructor; [| exact M2].
      apply MAltL. unfold scheme.
      change (lit "https:") with (lit "http" ++ [chr "s"] ++ [chr ":"]).
      constructor; [apply matches_Lit |].
      constructor; [apply MAltL |]; constructor; reflexivity.
  - inversion H as [| | ? ? s1 s2 M1 M2 E1 E2 | | | |]; subst.
    inversion M1 as [| | | ? ? ? M | ? ? ? M | |]; subst.
    + apply scheme_matches in M. destruct M; subst.
      * discriminate.
      * cbn in E2. injection E2 as ->.
        change (lit "//" ++ t) with ([] ++ lit "//" ++ t).
        constructor; [apply MAltR; constructor | exact M2].
    + inversion M; subst. simpl in E2. subst s2.
      apply host_and_path_slashes in M2 as [t' Ht']. discriminate.
Qed.

End HostPattern.

(** ** The three filters *)

Section ClassifierFacts.
Context {R : PyRuntime}.

Lemma normalize_cases (s : str) :
  (exists t, s = lit "//" ++ t /\ normalize s = lit "https:" ++ lit "//" ++ t)
  \/ (startswith (lit "//") s = false /\ normalize s = s).
Proof.
  unfold normalize. destruct (startswith (lit "//") s) eqn:Hs.
  - left. apply startswith_app in Hs as [t ->]. exists t. auto.
  - right. auto.
Qed.

Lemma normalize_fullmatch (s : str) :
  fullmatch IMAGE_HOSTS_REGEX (normalize s) = fullmatch IMAGE_HOSTS_REGEX s.
Proof.
  destruct (normalize_cases s) as [(t & -> & ->) | [_ ->]];
    [| reflexivity].
  symmetry. apply fullmatch_protocol_relative.
Qed.




End ClassifierFacts.

(* ================================================================== *)
(** * The properties of the specification *)

Section MinerProperties.
Context {R : PyRuntime}.

Lemma classify_Some (s u : str) :
  classify s = Some u ->
  fullmatch IMAGE_HOSTS_REGEX s = true /\ u = normalize s /\
  TINY_IMAGE_PARAM_search u = false /\ is_small_sized_profile_pic u = false.
Proof.
  unfold classify.
  destruct (fullmatch IMAGE_HOSTS_REGEX s); [| discriminate].
  destruct (TINY_IMAGE_PARAM_search (normalize s)) eqn:Ht; [discriminate |].
  destruct (is_small_sized_profile_pic (normalize s)) eqn:Hp;
    [discriminate |].
  simpl. intro H. injection H as <-. auto.
Qed.

Lemma classify_protocol_relative (t : str) :
  classify (lit "//" ++ t) = classify (lit "https:" ++ lit "//" ++ t).
Proof.
  unfold classify. rewrite <- fullmatch_protocol_relative. reflexivity.
Qed.


Lemma strings_of_dict_values (items : list (str * value)) :
  strings_of (VDict items) = strings_of (VList (List.map snd items)).
Proof.
  simpl. induction items as [| [k v] items IH]; simpl; [reflexivity |].
  rewrite IH. reflexivity.
Qed.

Lemma strings_of_rekey (f : str -> str) (d : value) :
  strings_of (rekey f d) = strings_of d.
Proof.
  induction d as [| b | z | x | s | items IH | items IH]
    using value_tree_ind; try reflexivity.
  - simpl. induction IH as [| item rest Hitem _ IHrest]; [reflexivity |].
    simpl. rewrite IHrest. f_equal.
    destruct item; try reflexivity; exact Hitem.
  - simpl. induction IH as [| [k v] rest Hitem _ IHrest]; [reflexivity |].
    simpl in *. rewrite IHrest. f_equal.
    destruct v; try reflexivity; exact Hitem.
Qed.

Lemma occurs_permuted (items items' : list value) (s : str) :
  Permutation items items' ->
  occurs s (VList items) -> occurs s (VList items').
Proof.
  intros P H. inversion H as [? Hin | | ? v Hin Hv |]; subst.
  - apply occurs_element. eapply Permutation_in; eassumption.
  - eapply occurs_in_element; [| exact Hv].
    eapply Permutation_in; eassumption.
Qed.

Lemma image_urls_process_payload (url : str) (d : value) :
  image_urls (process_payload url d)
  = if truthy d then image_urls_of d else [].
Proof. unfold process_payload. destruct (truthy d); reflexivity. Qed.


(** C4.  The mined set holds each normalized URL once, however often and
    in whichever of the two forms it occurs; the list of the record is
    strictly ascending in the string order and is the same for any two
    payloads in which the same strings occur, so in particular for any
    reordering of a sequence. *)
Theorem miner_dedups_and_sorts :
  (forall d, NoDup (mine d)) /\
  (forall t, classify (lit "//" ++ t) = classify (lit "https://" ++ t)) /\
  (forall d t u,
     occurs (lit "//" ++ t) d -> occurs (lit "https://" ++ t) d ->
     classify (lit "//" ++ t) = Some u ->
     u = lit "https://" ++ t /\
     count_occ str_eq_dec (mine d) u = 1%nat /\
     count_occ str_eq_dec (image_urls_of d) u = 1%nat) /\
  (forall d s u,
     occurs s d -> classify s = Some u ->
     count_occ str_eq_dec (image_urls_of d) u = 1%nat) /\
  (forall url d, StronglySorted str_lt (image_urls (process_payload url d))) /\
  (forall d d',
     (forall s, occurs s d <-> occurs s d') ->
     image_urls_of d = image_urls_of d') /\
  (forall items items',
     Permutation items items' ->
     image_urls_of (VList items) = image_urls_of (VList items')).
Proof.
  assert (Hcount : forall d s u,
             occurs s d -> classify s = Some u ->
             count_occ str_eq_dec (mine d) u = 1%nat /\
             count_occ str_eq_dec (image_urls_of d) u = 1%nat).
  { intros d s u Ho Hc. split.
    - apply NoDup_count_occ'; [apply mine_NoDup |].
      apply mine_In. eauto.
    - apply NoDup_count_occ'; [apply image_urls_of_NoDup |].
      apply image_urls_of_In. eauto. }
  assert (Hext : forall d d',
             (forall s, occurs s d <-> occurs s d') ->
             image_urls_of d = image_urls_of d').
  { intros d d' H. apply image_urls_of_ext. intro u.
    rewrite !mine_In. split; intros (s & Ho & Hc); exists s;
      (split; [apply H |]; assumption). }
  split; [| split; [| split; [| split; [| split; [| split]]]]].
  - apply mine_NoDup.
  - intro t. apply classify_protocol_relative.
  - intros d t u Hrel Habs Hc. split.
    + apply classify_Some in Hc as (_ & Hu & _). exact Hu.
    + exact (Hcount d _ u Hrel Hc).
  - intros d s u Ho Hc. eapply Hcount; eassumption.
  - intros url d. rewrite image_urls_process_payload.
    destruct (truthy d); [apply image_urls_of_sorted | constructor].
  - exact Hext.
  - intros items items' P. apply Hext. intro s.
    split; apply occurs_permuted; [| apply Permutation_sym]; exact P.
Qed.


(** C10.  A payload that is itself a string leaves the set as it was,
    whatever the string; the keys of a mapping play no part: a mapping
    is mined as the sequence of its values, and renaming every key of a
    tree changes nothing. *)
Theorem miner_skips_bare_strings_and_keys :
  (forall s found, find_image_urls_recursively (VStr s) found = found) /\
  (forall s, mine (VStr s) = []) /\
  (forall url s, image_urls (process_payload url (VStr s)) = []) /\
  (forall k, mine (VDict [(k, VNull)]) = []) /\
  (forall items, mine (VDict items) = mine (VList (List.map snd items))) /\
  (forall f d, mine (rekey f d) = mine d).
Proof.
  split; [| split; [| split; [| split; [| split]]]]; try reflexivity.
  - intros url s. rewrite image_urls_process_payload.
    destruct (truthy (VStr s)); reflexivity.
  - intro items. unfold mine.
    rewrite !find_as_fold, strings_of_dict_values. reflexivity.
  - intros f d. unfold mine.
    rewrite !find_as_fold, strings_of_rekey. reflexivity.
Qed.

End MinerProperties.



(** The sample payload holds one photo three times, in both forms: the
    record lists it once. *)
Lemma miner_dedups_and_sorts_witness :
  (occurs Samples.photo_relative Samples.payload /\
   occurs Samples.photo_absolute Samples.payload /\
   @classify ascii_runtime Samples.photo_relative
   = Some Samples.photo_absolute) /\
  (Samples.photo_absolute = Samples.photo_absolute /\
   count_occ str_eq_dec (@mine ascii_runtime Samples.payload)
     Samples.photo_absolute = 1%nat /\
   count_occ str_eq_dec (@image_urls_of ascii_runtime Samples.payload)
     Samples.photo_absolute = 1%nat) /\
  @image_urls_of ascii_runtime Samples.payload = [Samples.photo_absolute].
Proof.
  assert (Hrel : occurs Samples.photo_relative Samples.payload).
  { apply occurs_strings_of. vm_compute.
    left. reflexivity. }
  assert (Habs : occurs Samples.photo_absolute Samples.payload).
  { apply occurs_strings_of. vm_compute.
    do 2 right. left. reflexivity. }
  assert (Hc : @classify ascii_runtime Samples.photo_relative
               = Some Samples.photo_absolute) by (vm_compute; reflexivity).
  split; [auto | split; [| vm_compute; reflexivity]].
  exact (proj1 (proj2 (proj2 (@miner_dedups_and_sorts ascii_runtime)))
           Samples.payload
           (lit "lh3.googleusercontent.com/p/AF1QipMx=w408-h306-k-no")
           Samples.photo_absolute Hrel Habs Hc).
Defined.


(** ** Positional lookups *)

Section LookupFacts.

Lemma get_nested_value_reaches (data : value) (path : list path_key)
  (default v : value) :
  reaches data path v -> get_nested_value data path default = v.
Proof.
  induction 1 as [v | items i path v w Hi Hnth _ IH
                 | items k path v w Hget _ IH]; simpl.
  - reflexivity.
  - assert (Hlt : (Z.to_nat i < List.length items)%nat)
      by (apply nth_error_Some; congruence).
    replace ((0 <=? i)%Z && (i <? Z.of_nat (List.length items))%Z)
      with true
      by (symmetry; apply andb_true_iff; split;
          [apply Z.leb_le | apply Z.ltb_lt]; lia).
    rewrite (nth_error_nth _ _ VNull Hnth). exact IH.
  - rewrite Hget. exact IH.
Qed.

Lemma get_nested_value_step_fails (cur : value) (key : path_key)
  (rest : list path_key) (default : value) :
  step_fails cur key -> get_nested_value cur (key :: rest) default = default.
Proof.
  destruct key as [i | k |]; simpl; intro H; [| | reflexivity].
  - destruct cur; try reflexivity.
    replace ((0 <=? i)%Z && (i <? Z.of_nat (List.length items))%Z)
      with false; [reflexivity |].
    symmetry. apply andb_false_iff.
    destruct H; [left; apply Z.leb_gt | right; apply Z.ltb_ge]; lia.
  - destruct cur; try reflexivity. rewrite H. reflexivity.
Qed.

Lemma get_nested_value_fails_at (data : value) (p1 : list path_key) :
  forall key p2 default cur,
    reaches data p1 cur -> step_fails cur key ->
    get_nested_value data (p1 ++ key :: p2) default = default.
Proof.
  intros key p2 default cur Hr.
  induction Hr as [v | items i path v w Hi Hnth _ IH
                  | items k path v w Hget _ IH]; intro Hf.
  - apply get_nested_value_step_fails. exact Hf.
  - simpl.
    assert (Hlt : (Z.to_nat i < List.length items)%nat)
      by (apply nth_error_Some; congruence).
    replace ((0 <=? i)%Z && (i <? Z.of_nat (List.length items))%Z)
      with true
      by (symmetry; apply andb_true_iff; split;
          [apply Z.leb_le | apply Z.ltb_lt]; lia).
    rewrite (nth_error_nth _ _ VNull Hnth). apply IH. exact Hf.
  - simpl. rewrite Hget. apply IH. exact Hf.
Qed.

(** Every lookup either goes through or stops at a failing step. *)
Lemma reaches_or_fails (path : list path_key) :
  forall data,
    (exists v, reaches data path v) \/
    (exists p1 key p2 cur,
        path = p1 ++ key :: p2 /\ reaches data p1 cur /\ step_fails cur key).
Proof.
  induction path as [| key rest IH]; intro data.
  - left. exists data. constructor.
  - assert (Hstop : step_fails data key ->
              exists p1 key' p2 cur,
                key :: rest = p1 ++ key' :: p2 /\
                reaches data p1 cur /\ step_fails cur key').
    { intro Hf. exists [], key, rest, data.
      repeat split; [constructor | exact Hf]. }
    destruct key as [i | k |]; [| | right; apply Hstop; exact I].
    + destruct data as [| | | | | items |];
        try (right; apply Hstop; exact I).
      destruct (Z.ltb_spec i 0) as [Hneg | Hpos];
        [right; apply Hstop; left; exact Hneg |].
      destruct (nth_error items (Z.to_nat i)) as [v |] eqn:Hnth.
      * destruct (IH v) as [[w Hw] | (p1 & key' & p2 & cur & -> & Hr & Hf)].
        -- left. exists w. econstructor; eassumption.
        -- right. exists (KInt i :: p1), key', p2, cur.
           repeat split; [econstructor; eassumption | exact Hf].
      * right. apply Hstop. right.
        apply nth_error_None in Hnth. simpl. lia.
    + destruct data as [| | | | | | items];
        try (right; apply Hstop; exact I).
      destruct (dict_get k items) as [v |] eqn:Hget;
        [| right; apply Hstop; exact Hget].
      destruct (IH v) as [[w Hw] | (p1 & key' & p2 & cur & -> & Hr & Hf)].
      * left. exists w. econstructor; eassumption.
      * right. exists (KStr k :: p1), key', p2, cur.
        repeat split; [econstructor; eassumption | exact Hf].
Qed.

(** A record block that is found is inside a truthy payload. *)
Lemma truthy_found (data : value) (key : path_key) (rest : list path_key) :
  truthy (get_nested_value data (key :: rest) VNull) = true ->
  truthy data = true.
Proof.
  destruct key as [i | k |]; simpl; [| | discriminate].
  - destruct data as [| | | | | items |]; try discriminate.
    destruct items; [| reflexivity].
    simpl. rewrite andb_comm.
    replace (i <? 0)%Z with (negb (0 <=? i)%Z)
      by (rewrite Z.leb_antisym, negb_involutive; reflexivity).
    destruct (0 <=? i)%Z; discriminate.
  - destruct data as [| | | | | | items]; try discriminate.
    destruct items; [discriminate | reflexivity].
Qed.

End LookupFacts.

(** ** Title and address *)


Section ExtractorProperties.
Context {R : PyRuntime}.


Lemma process_payload_fields (url : str) (obj : value) :
  truthy (get_nested_value obj darray_path VNull) = true ->
  let darray := get_nested_value obj darray_path VNull in
  title (process_payload url obj) = extract_title darray /\
  address (process_payload url obj)
  = extract_address (extract_title darray) darray.
Proof.
  intro Ht. unfold process_payload.
  rewrite (truthy_found obj (KInt 1) [KInt 11; KInt 0; KInt 0] Ht).
  fold darray_path. rewrite Ht. simpl. auto.
Qed.

Lemma slice_from_app (a b : str) : slice_from (List.length a) (a ++ b) = b.
Proof. unfold slice_from. induction a; simpl; auto. Qed.

Lemma extract_title_not_str (darray : value) :
  is_str (get_nested_value darray [KInt 1] VNull) = false ->
  extract_title darray = None.
Proof.
  unfold extract_title.
  destruct (get_nested_value darray [KInt 1] VNull); try reflexivity.
  discriminate.
Qed.

Lemma extract_address_list (t : option str) (darray : value)
  (parts : list value) :
  get_nested_value darray [KInt 2] VNull = VList parts -> parts <> [] ->
  extract_address t darray =
  match t with
  | Some t =>
      if str_truthy t && startswith t (joined_parts parts)
      then Some (strip (lstrip_by (char_in (lit ", "))
                          (slice_from (List.length t) (joined_parts parts))))
      else Some (joined_parts parts)
  | None => Some (joined_parts parts)
  end.
Proof.
  intros H Hne. unfold extract_address. rewrite H.
  destruct parts; [contradiction | reflexivity].
Qed.

Lemma extract_address_other (t : option str) (darray : value) :
  is_list (get_nested_value darray [KInt 2] VNull) = false ->
  extract_address t darray =
  let addr_list := get_nested_value darray [KInt 2] VNull in
  if truthy addr_list then Some (strip (py_str addr_list)) else None.
Proof.
  unfold extract_address.
  destruct (get_nested_value darray [KInt 2] VNull); try reflexivity.
  discriminate.
Qed.

(** The record block of the Café De Paris, for any runtime in which the
    letters and digits at the ends of the strings are no white space. *)
Lemma cafe_de_paris :
  uni_isspace (chr "C") = false -> uni_isspace (chr "s") = false ->
  uni_isspace (chr "1") = false -> uni_isspace (chr "t") = false ->
  let place :=
    process_payload Samples.place
      (RecordSamples.around RecordSamples.cafe_block) in
  title place = Some RecordSamples.cafe /\
  address place = Some (lit "12 Main St").
Proof.
  intros HC Hs H1 Ht place.
  assert (Hcafe : strip RecordSamples.cafe = RecordSamples.cafe).
  { apply (strip_by_ends uni_isspace (chr "C")
             (lit "af" ++ [233%N] ++ lit " De Pari") (chr "s")); assumption. }
  assert (Hjoin : strip (RecordSamples.cafe ++ lit ", 12 Main St")
                  = RecordSamples.cafe ++ lit ", 12 Main St").
  { apply (strip_by_ends uni_isspace (chr "C")
             (lit "af" ++ [233%N] ++ lit " De Paris, 12 Main S") (chr "t"));
      assumption. }
  assert (Hrest : strip (lit "12 Main St") = lit "12 Main St").
  { apply (strip_by_ends uni_isspace (chr "1") (lit "2 Main S") (chr "t"));
      assumption. }
  destruct (process_payload_fields Samples.place
              (RecordSamples.around RecordSamples.cafe_block) eq_refl)
    as [T A].
  subst place. rewrite T, A.
  change (get_nested_value (RecordSamples.around RecordSamples.cafe_block)
            darray_path VNull) with RecordSamples.cafe_block.
  assert (HT : extract_title RecordSamples.cafe_block
               = Some RecordSamples.cafe).
  { unfold extract_title.
    change (get_nested_value RecordSamples.cafe_block [KInt 1] VNull)
      with (VStr RecordSamples.cafe).
    cbv iota beta. change (truthy (VStr RecordSamples.cafe)) with true.
    cbv iota. rewrite Hcafe. reflexivity. }
  rewrite HT. split; [reflexivity |].
  rewrite (extract_address_list (Some RecordSamples.cafe)
             RecordSamples.cafe_block
             (parts := [VStr RecordSamples.cafe; VStr (lit "12 Main St")])
             eq_refl) by discriminate.
  unfold joined_parts.
  change (join (lit ", ") _) with (RecordSamples.cafe ++ lit ", 12 Main St").
  rewrite Hjoin.
  change (str_truthy RecordSamples.cafe &&
          startswith RecordSamples.cafe
            (RecordSamples.cafe ++ lit ", 12 Main St")) with true.
  cbv iota.
  change (lstrip_by _ _) with (lit "12 Main St").
  rewrite Hrest. reflexivity.
Qed.

(** C5.  The address is the parts of the address offset, stringified and
    joined with a comma and a space; when that begins with the title
    already extracted, the title and the commas and spaces after it are
    taken off.  For the parts ["Café De Paris", "12 Main St"] under the
    title "Café De Paris" the address is "12 Main St". *)
Theorem address_is_joined_and_title_stripped :
  (forall darray t0 parts,
     get_nested_value darray [KInt 1] VNull = VStr t0 -> t0 <> [] ->
     get_nested_value darray [KInt 2] VNull = VList parts -> parts <> [] ->
     extract_title darray = Some (strip t0) /\
     (forall tail,
        strip t0 <> [] -> joined_parts parts = strip t0 ++ tail ->
        extract_address (extract_title darray) darray
        = Some (strip (lstrip_by (char_in (lit ", ")) tail))) /\
     (startswith (strip t0) (joined_parts parts) = false ->
      extract_address (extract_title darray) darray
      = Some (joined_parts parts))) /\
  (uni_isspace (chr "C") = false -> uni_isspace (chr "s") = false ->
   uni_isspace (chr "1") = false -> uni_isspace (chr "t") = false ->
   let place :=
     process_payload Samples.place
       (RecordSamples.around RecordSamples.cafe_block) in
   title place = Some RecordSamples.cafe /\
   address place = Some (lit "12 Main St")).
Proof.
  split; [| apply cafe_de_paris].
  intros darray t0 parts Ht Hne Ha Hparts.
  assert (Htitle : extract_title darray = Some (strip t0)).
  { unfold extract_title. rewrite Ht. destruct t0; [contradiction |].
    reflexivity. }
  split; [exact Htitle |]. rewrite Htitle.
  rewrite (extract_address_list _ darray Ha Hparts).
  split.
  - intros tail Hs Hj.
    assert (Hsw : startswith (strip t0) (joined_parts parts) = true)
      by (apply startswith_app; eauto).
    rewrite Hsw, Hj, slice_from_app.
    destruct (strip t0); [contradiction | reflexivity].
  - intro Hsw. rewrite Hsw, andb_false_r. reflexivity.
Qed.

(** C6.  A lookup whose path can be followed returns what it ends on; a
    lookup whose path stops at a step that is missing, out of bounds or of
    the wrong type returns the default; there is no third case.  When the
    title offset is missing or holds no string the title is none, and the
    address is still the joined parts of its own offset. *)
Theorem lookups_degrade_independently :
  (forall data path default v,
     reaches data path v -> get_nested_value data path default = v) /\
  (forall data p1 key p2 default cur,
     reaches data p1 cur -> step_fails cur key ->
     get_nested_value data (p1 ++ key :: p2) default = default) /\
  (forall data path,
     (exists v, reaches data path v) \/
     (exists p1 key p2 cur,
         path = p1 ++ key :: p2 /\ reaches data p1 cur /\
         step_fails cur key)) /\
  (forall url obj parts,
     let darray := get_nested_value obj darray_path VNull in
     truthy darray = true ->
     is_str (get_nested_value darray [KInt 1] VNull) = false ->
     get_nested_value darray [KInt 2] VNull = VList parts -> parts <> [] ->
     title (process_payload url obj) = None /\
     address (process_payload url obj) = Some (joined_parts parts)).
Proof.
  split; [| split; [| split]].
  - intros. apply get_nested_value_reaches. assumption.
  - intros. eapply get_nested_value_fails_at; eassumption.
  - intros. apply reaches_or_fails.
  - intros url obj parts darray Ht Hs Ha Hne.
    destruct (process_payload_fields url obj Ht) as [-> ->].
    fold darray. rewrite (extract_title_not_str darray Hs).
    split; [reflexivity |].
    rewrite (extract_address_list None darray Ha Hne). reflexivity.
Qed.

(** C7, as the code has it.  When the address offset holds a value that is
    no sequence, the address is that value as a string, stripped of
    surrounding white space, provided the value is truthy; for a falsy one
    ([None], [False], 0, the empty string, the empty mapping) the address
    stays not-found. *)
Theorem non_sequence_address_is_coerced_when_truthy :
  forall url obj,
    let darray := get_nested_value obj darray_path VNull in
    let addr_list := get_nested_value darray [KInt 2] VNull in
    truthy darray = true ->
    is_list addr_list = false ->
    (truthy addr_list = true ->
     address (process_payload url obj) = Some (strip (py_str addr_list))) /\
    (truthy addr_list = false ->
     address (process_payload url obj) = None).
Proof.
  intros url obj darray addr_list Ht Hl.
  destruct (process_payload_fields url obj Ht) as [_ ->].
  fold darray. rewrite (extract_address_other _ darray Hl).
  fold addr_list. simpl.
  split; intros ->; reflexivity.
Qed.

End ExtractorProperties.

(** The Café De Paris block under the ASCII runtime. *)
Lemma address_is_joined_and_title_stripped_witness :
  (@uni_isspace ascii_runtime (chr "C") = false /\
   @uni_isspace ascii_runtime (chr "s") = false /\
   @uni_isspace ascii_runtime (chr "1") = false /\
   @uni_isspace ascii_runtime (chr "t") = false) /\
  (title (@process_payload ascii_runtime Samples.place
            (RecordSamples.around RecordSamples.cafe_block))
   = Some RecordSamples.cafe /\
   address (@process_payload ascii_runtime Samples.place
              (RecordSamples.around RecordSamples.cafe_block))
   = Some (lit "12 Main St")).
Proof.
  split; [repeat split |].
  exact (proj2 (@address_is_joined_and_title_stripped ascii_runtime)
           eq_refl eq_refl eq_refl eq_refl).
Defined.

(** A block with [None] at the title offset: no title, and the address of
    its two parts. *)
Lemma lookups_degrade_independently_witness :
  (truthy RecordSamples.untitled_block = true /\
   is_str (get_nested_value RecordSamples.untitled_block [KInt 1] VNull)
   = false) /\
  (title (@process_payload ascii_runtime Samples.place
            (RecordSamples.around RecordSamples.untitled_block)) = None /\
   address (@process_payload ascii_runtime Samples.place
              (RecordSamples.around RecordSamples.untitled_block))
   = Some (lit "12 Main St, Berkeley")).
Proof.
  split; [split; reflexivity |].
  refine (proj2 (proj2 (proj2 (@lookups_degrade_independently ascii_runtime)))
            Samples.place (RecordSamples.around RecordSamples.untitled_block)
            [VStr (lit "12 Main St"); VStr (lit "Berkeley")] _ _ _ _).
  - reflexivity.
  - reflexivity.
  - reflexivity.
  - discriminate.
Defined.

(** C7 as stated fails: with 0 at the address offset, a value that is no
    sequence and whose string is "0", the address is not-found. *)
Lemma zero_address_is_not_found :
  get_nested_value RecordSamples.zero_address_block [KInt 2] VNull = VInt 0 /\
  is_list (VInt 0) = false /\
  @py_str ascii_runtime (VInt 0) = lit "0" /\
  @extract_address ascii_runtime (Some (lit "Kipriakon"))
    RecordSamples.zero_address_block = None /\
  address (@process_payload ascii_runtime Samples.place
             (RecordSamples.around RecordSamples.zero_address_block)) = None.
Proof. repeat split; vm_compute; reflexivity. Qed.

(** A block whose address offset holds a string: the address is that
    string, stripped. *)
Lemma non_sequence_address_is_coerced_when_truthy_witness :
  (truthy RecordSamples.text_address_block = true /\
   truthy (VStr (lit " 5 Elm St ")) = true) /\
  address (@process_payload ascii_runtime Samples.place
             (RecordSamples.around RecordSamples.text_address_block))
  = Some (lit "5 Elm St").
Proof.
  split; [split; reflexivity |].
  refine (proj1 (@non_sequence_address_is_coerced_when_truthy ascii_runtime
                   Samples.place
                   (RecordSamples.around RecordSamples.text_address_block)
                   _ _) _).
  - reflexivity.
  - reflexivity.
  - reflexivity.
Defined.

(** ** The retry loop *)


Section AcquisitionProperties.
Context {R : PyRuntime}.

Lemma attempt_loop_stops (evaluate : nat -> value) (attempt : nat)
  (later : list nat) (st : acquired) (v : value) :
  yields (evaluate attempt) = Some v ->
  json_data_obj (attempt_loop evaluate (attempt :: later) st) = v /\
  trace (attempt_loop evaluate (attempt :: later) st)
  = trace st ++ [Evaluate].
Proof.
  unfold yields. simpl attempt_loop.
  destruct (truthy (evaluate attempt)); [| discriminate].
  destruct (evaluate attempt) as [| b | z | f | raw | items | items];
    try (intro H; injection H as <-; split; reflexivity).
  intro H. rewrite H. split; reflexivity.
Qed.

Lemma attempt_loop_retries (evaluate : nat -> value) (attempt : nat)
  (later : list nat) (st : acquired) :
  yields (evaluate attempt) = None ->
  exists st',
    attempt_loop evaluate (attempt :: later) st
    = attempt_loop evaluate later st' /\
    trace st'
    = trace st ++ Evaluate :: (if (attempt <? 2)%nat then [Sleep 3] else []) /\
    (json_data_obj st = VNull -> json_data_obj st' = VNull).
Proof.
  unfold yields. simpl attempt_loop.
  destruct (truthy (evaluate attempt)).
  - destruct (evaluate attempt) as [| b | z | f | raw | items | items];
      try discriminate.
    intro H. rewrite H. eexists. split; [reflexivity |].
    destruct (attempt <? 2)%nat; simpl; rewrite <- ?app_assoc; auto.
  - intros _. eexists. split; [reflexivity |].
    destruct (attempt <? 2)%nat; simpl; rewrite <- ?app_assoc; auto.
Qed.

(** The four ways the loop can go. *)
Lemma acquire_cases (evaluate : nat -> value) :
  let r := acquire evaluate in
  (exists v, yields (evaluate 0%nat) = Some v /\
             json_data_obj r = v /\ trace r = attempts_trace 1) \/
  (exists v, yields (evaluate 0%nat) = None /\
             yields (evaluate 1%nat) = Some v /\
             json_data_obj r = v /\ trace r = attempts_trace 2) \/
  (exists v, yields (evaluate 0%nat) = None /\
             yields (evaluate 1%nat) = None /\
             yields (evaluate 2%nat) = Some v /\
             json_data_obj r = v /\ trace r = attempts_trace 3) \/
  (yields (evaluate 0%nat) = None /\ yields (evaluate 1%nat) = None /\
   yields (evaluate 2%nat) = None /\
   json_data_obj r = VNull /\ trace r = attempts_trace 3).
Proof.
  unfold acquire. set (st0 := {| json_data_obj := VNull |}).
  destruct (yields (evaluate 0%nat)) as [v |] eqn:H0.
  { left. exists v.
    destruct (attempt_loop_stops evaluate 0 [1; 2]%nat st0 H0) as [-> ->].
    auto. }
  right.
  destruct (attempt_loop_retries evaluate 0 [1; 2]%nat st0 H0)
    as (st1 & -> & T1 & J1).
  destruct (yields (evaluate 1%nat)) as [v |] eqn:H1.
  { left. exists v.
    destruct (attempt_loop_stops evaluate 1 [2]%nat st1 H1) as [-> ->].
    rewrite T1. auto. }
  right.
  destruct (attempt_loop_retries evaluate 1 [2]%nat st1 H1)
    as (st2 & -> & T2 & J2).
  destruct (yields (evaluate 2%nat)) as [v |] eqn:H2.
  { left. exists v.
    destruct (attempt_loop_stops evaluate 2 []%nat st2 H2) as [-> ->].
    rewrite T2, T1. auto. }
  right.
  destruct (attempt_loop_retries evaluate 2 []%nat st2 H2)
    as (st3 & -> & T3 & J3).
  simpl attempt_loop. rewrite T3, T2, T1.
  repeat split; auto.
Qed.

(** C1, as the code has it.  The loop calls [page.evaluate] between once
    and three times, with a sleep of 3 seconds between consecutive calls
    and none after the last.  It stops at the first call whose value is
    truthy and is either not a string or a string that parses, and that
    value is the payload; a falsy value (null, false, 0, an empty string,
    list or mapping) counts as absent.  When none of the three calls
    yields, the payload is none and the record comes back empty.  With
    nothing on the first two calls and a value that yields on the third,
    there are three calls and two sleeps of 3 seconds. *)
Theorem acquisition_makes_at_most_three_attempts :
  forall (evaluate : nat -> value) (url : str),
    let r := acquire evaluate in
    (exists n, (1 <= n <= 3)%nat /\ trace r = attempts_trace n /\
               count_evaluate (trace r) = n /\
               sleeps (trace r) = repeat 3%Z (n - 1)) /\
    (forall k v,
       (k < 3)%nat ->
       (forall j, (j < k)%nat -> yields (evaluate j) = None) ->
       yields (evaluate k) = Some v ->
       json_data_obj r = v /\ trace r = attempts_trace (S k)) /\
    ((forall j, (j < 3)%nat -> yields (evaluate j) = None) ->
     json_data_obj r = VNull /\ trace r = attempts_trace 3 /\
     extract_images_for_place evaluate url
     = {| title := None; address := None; image_urls := [];
          place_url := url |}) /\
    (forall v,
       truthy (evaluate 0%nat) = false -> truthy (evaluate 1%nat) = false ->
       yields (evaluate 2%nat) = Some v ->
       json_data_obj r = v /\
       trace r = [Evaluate; Sleep 3; Evaluate; Sleep 3; Evaluate] /\
       count_evaluate (trace r) = 3%nat /\ sleeps (trace r) = [3; 3]%Z).
Proof.
  intros evaluate url r.
  pose proof (acquire_cases evaluate) as C. fold r in C.
  assert (Hfirst : forall k v,
             (k < 3)%nat ->
             (forall j, (j < k)%nat -> yields (evaluate j) = None) ->
             yields (evaluate k) = Some v ->
             json_data_obj r = v /\ trace r = attempts_trace (S k)).
  { intros k v Hk Hbefore Hyes.
    destruct k as [| [| [| k]]]; [| | | lia].
    - destruct C as [(w & Y0 & J & T) | [(w & Y0 & _) | [(w & Y0 & _) | (Y0 & _)]]];
        try congruence. split; congruence.
    - pose proof (Hbefore 0%nat ltac:(lia)) as N0.
      destruct C as [(w & Y0 & _) | [(w & _ & Y1 & J & T)
                    | [(w & _ & Y1 & _) | (_ & Y1 & _)]]];
        try congruence. split; congruence.
    - pose proof (Hbefore 0%nat ltac:(lia)) as N0.
      pose proof (Hbefore 1%nat ltac:(lia)) as N1.
      destruct C as [(w & Y0 & _) | [(w & _ & Y1 & _)
                    | [(w & _ & _ & Y2 & J & T) | (_ & _ & Y2 & _)]]];
        try congruence. split; congruence. }
  split; [| split; [exact Hfirst | split]].
  - destruct C as [(w & _ & _ & T) | [(w & _ & _ & _ & T)
                  | [(w & _ & _ & _ & _ & T) | (_ & _ & _ & _ & T)]]];
      [exists 1%nat | exists 2%nat | exists 3%nat | exists 3%nat];
      rewrite T; repeat split; lia.
  - intro Hnone.
    pose proof (Hnone 0%nat ltac:(lia)) as N0.
    pose proof (Hnone 1%nat ltac:(lia)) as N1.
    pose proof (Hnone 2%nat ltac:(lia)) as N2.
    destruct C as [(w & Y0 & _) | [(w & _ & Y1 & _)
                  | [(w & _ & _ & Y2 & _) | (_ & _ & _ & J & T)]]];
      try congruence.
    repeat split; try assumption.
    unfold extract_images_for_place. fold r. rewrite J. reflexivity.
  - intros v F0 F1 Y2.
    assert (N0 : yields (evaluate 0%nat) = None)
      by (unfold yields; rewrite F0; reflexivity).
    assert (N1 : yields (evaluate 1%nat) = None)
      by (unfold yields; rewrite F1; reflexivity).
    destruct (Hfirst 2%nat v) as [J T]; [lia | | exact Y2 |].
    + intros j Hj. destruct j as [| [| j]]; [assumption | assumption | lia].
    + rewrite T. repeat split; assumption || reflexivity.
Qed.

(** C2, as the code has it.  A string that begins with the four
    characters [)]}'] followed by a newline loses exactly those four
    characters, and the newline stays at the head of what is parsed; any
    other string, also one that begins with [)]}'] alone, is parsed as it
    is.  What the parser says of that string decides the attempt. *)
Theorem security_prefix_is_stripped :
  forall raw : str,
    (startswith security_prefix raw = true ->
     raw = lit ")]}'" ++ current_json_string raw /\
     startswith [10%N] (current_json_string raw) = true) /\
    (startswith security_prefix raw = false ->
     current_json_string raw = raw) /\
    (forall evaluate v,
       evaluate 0%nat = VStr raw -> raw <> [] ->
       json_loads (current_json_string raw) = Some v ->
       json_data_obj (acquire evaluate) = v /\
       raw_json_data_str (acquire evaluate) = Some raw /\
       trace (acquire evaluate) = [Evaluate]).
Proof.
  intro raw. split; [| split].
  - intro H. unfold current_json_string. rewrite H.
    apply startswith_app in H as [t ->]. split; reflexivity.
  - intro H. unfold current_json_string. rewrite H. reflexivity.
  - intros evaluate v He Hne Hp. unfold acquire. simpl attempt_loop.
    rewrite He. destruct raw; [contradiction |].
    simpl truthy. cbv iota. rewrite Hp. repeat split.
Qed.

End AcquisitionProperties.

(** Nothing twice, then a prefixed string that parses: three calls, two
    sleeps, and the parsed list. *)
Lemma acquisition_makes_at_most_three_attempts_witness :
  (truthy (AcquisitionSamples.late_string 0) = false /\
   truthy (AcquisitionSamples.late_string 1) = false /\
   @yields ascii_runtime (AcquisitionSamples.late_string 2)
   = Some (VList [VNull; VList [VInt 1; VInt 2]])) /\
  (json_data_obj (@acquire ascii_runtime AcquisitionSamples.late_string)
   = VList [VNull; VList [VInt 1; VInt 2]] /\
   trace (@acquire ascii_runtime AcquisitionSamples.late_string)
   = [Evaluate; Sleep 3; Evaluate; Sleep 3; Evaluate] /\
   count_evaluate
     (trace (@acquire ascii_runtime AcquisitionSamples.late_string)) = 3%nat /\
   sleeps (trace (@acquire ascii_runtime AcquisitionSamples.late_string))
   = [3; 3]%Z).
Proof.
  assert (Y : @yields ascii_runtime (AcquisitionSamples.late_string 2)
              = Some (VList [VNull; VList [VInt 1; VInt 2]]))
    by (vm_compute; reflexivity).
  split; [repeat split; exact Y |].
  exact (proj2 (proj2 (proj2
           (@acquisition_makes_at_most_three_attempts ascii_runtime
              AcquisitionSamples.late_string Samples.place)))
           _ eq_refl eq_refl Y).
Defined.

(** C1 as stated fails: an empty list is a structured value, yet the loop
    does not stop on it; it sleeps, evaluates again and uses the value of
    the second call. *)
Lemma empty_structure_does_not_stop_the_loop :
  AcquisitionSamples.empty_then_data 0 = VList [] /\
  is_str (AcquisitionSamples.empty_then_data 0) = false /\
  trace (@acquire ascii_runtime AcquisitionSamples.empty_then_data)
  = [Evaluate; Sleep 3; Evaluate] /\
  json_data_obj (@acquire ascii_runtime AcquisitionSamples.empty_then_data)
  = VList [VInt 1].
Proof. repeat split; vm_compute; reflexivity. Qed.

(** A string with the prefix and the newline loses the four characters. *)
Lemma security_prefix_is_stripped_witness :
  startswith security_prefix (security_prefix ++ lit "[null, [1, 2]]") = true
  /\
  (security_prefix ++ lit "[null, [1, 2]]"
   = lit ")]}'" ++
     current_json_string (security_prefix ++ lit "[null, [1, 2]]") /\
   startswith [10%N]
     (current_json_string (security_prefix ++ lit "[null, [1, 2]]")) = true).
Proof.
  split; [reflexivity |].
  exact (proj1 (@security_prefix_is_stripped ascii_runtime
                  (security_prefix ++ lit "[null, [1, 2]]")) eq_refl).
Defined.

(** C2 as stated fails: a string that begins with the four characters of
    the prefix, with no newline after them, reaches the parser whole (and
    is refused, where the string without the prefix parses); and when the
    newline is there, it is not removed with the prefix. *)
Lemma bare_prefix_is_not_stripped :
  startswith (lit ")]}'") (lit ")]}'[1]") = true /\
  current_json_string (lit ")]}'[1]") = lit ")]}'[1]" /\
  current_json_string (lit ")]}'[1]") <> lit "[1]" /\
  @json_loads ascii_runtime (current_json_string (lit ")]}'[1]")) = None /\
  @json_loads ascii_runtime (lit "[1]") = Some (VList [VInt 1]) /\
  current_json_string (security_prefix ++ lit "[1]") = 10%N :: lit "[1]".
Proof. repeat split; try (vm_compute; reflexivity). discriminate. Qed.

(** ** The batch of downloads *)


Section SequenceNumbers.

Lemma digits_fold_uint (u : Decimal.uint) :
  forall acc,
    digits_fold (lit (NilEmpty.string_of_uint u)) acc = Nat.of_uint_acc u acc.
Proof.
  unfold digits_fold.
  induction u; intro acc; simpl; try reflexivity;
    rewrite IHu; f_equal; rewrite Nat.tail_mul_spec; simpl; lia.
Qed.

Lemma digits_fold_zeros (k : nat) (s : str) :
  digits_fold (repeat (chr "0") k ++ s) 0 = digits_fold s 0.
Proof. induction k; simpl; auto. Qed.

(** The sequence number can be read back from its three or more digits. *)
Lemma format_03d_value (n : nat) : digits_fold (format_03d n) 0 = n.
Proof.
  unfold format_03d. rewrite digits_fold_zeros.
  rewrite <- (DecimalNat.Unsigned.of_to n) at 2.
  unfold Nat.of_uint. rewrite <- digits_fold_uint.
  destruct (Nat.to_uint n); reflexivity.
Qed.

Lemma uint_digits (u : Decimal.uint) :
  Forall (fun c => is_ascii_digit c = true)
    (lit (NilEmpty.string_of_uint u)).
Proof. induction u; simpl; constructor; auto. Qed.

Lemma format_03d_digits (n : nat) :
  Forall (fun c => is_ascii_digit c = true) (format_03d n).
Proof.
  unfold format_03d. apply Forall_app. split.
  - apply Forall_forall. intros c Hc. apply repeat_spec in Hc. subst.
    reflexivity.
  - destruct (Nat.to_uint n);
      match goal with
      | |- context [NilZero.string_of_uint Decimal.Nil] => repeat constructor
      | |- context [NilZero.string_of_uint ?d] => exact (uint_digits d)
      end.
Qed.

(** Two runs of digits, each followed by a dot, that give the same
    string are the same run. *)
Lemma digits_before_dot (a : str) :
  forall b r r',
    Forall (fun c => is_ascii_digit c = true) a ->
    Forall (fun c => is_ascii_digit c = true) b ->
    a ++ chr "." :: r = b ++ chr "." :: r' -> a = b.
Proof.
  induction a as [| x a IH]; intros [| y b] r r' Ha Hb E; simpl in E.
  - reflexivity.
  - injection E as <- _. inversion Hb as [| ? ? Hy _]. discriminate.
  - injection E as -> _. inversion Ha as [| ? ? Hx _]. discriminate.
  - injection E as <- E. inversion Ha; inversion Hb; subst.
    f_equal. eapply IH; eassumption.
Qed.

End SequenceNumbers.

Section DownloadProperties.
Context {R : PyRuntime}.

Lemma choose_ext_dot (header : option str) (url : str) :
  exists rest, choose_ext header url = chr "." :: rest.
Proof.
  unfold choose_ext.
  repeat match goal with
         | |- context [if ?b then _ else _] => destruct b
         end; eexists; reflexivity.
Qed.

(** The files of two positions of a list are different files. *)
Lemma image_path_inj (folder : str) (i j : nat) (h h' : option str)
  (url url' : str) :
  image_path folder i h url = image_path folder j h' url' -> i = j.
Proof.
  unfold image_path, path_join. intro E.
  assert (E' : format_03d (i + 1) ++ choose_ext h url
               = format_03d (j + 1) ++ choose_ext h' url').
  { destruct (rev folder) as [| last rest]; [| destruct (char_eqb last _)];
      repeat (apply app_inv_head in E); exact E. }
  destruct (choose_ext_dot h url) as [r Hr].
  destruct (choose_ext_dot h' url') as [r' Hr'].
  rewrite Hr, Hr' in E'.
  apply digits_before_dot in E'; try apply format_03d_digits.
  apply (f_equal (fun s => digits_fold s 0)) in E'.
  rewrite !format_03d_value in E'. lia.
Qed.



Lemma download_image_returned (resp : response) (url folder : str) (c : nat) :
  returned (download_image resp url folder c) = negb (fails resp).
Proof.
  destruct resp as [| | | status header body | status header body];
    try reflexivity; simpl; destruct (status_ok status); reflexivity.
Qed.

Lemma download_image_written (resp : response) (url folder : str) (c : nat)
  (f : file) :
  written (download_image resp url folder c) = Some f <->
  exists header body,
    delivered resp header body /\
    f = (path_join folder (lit "image_" ++ format_03d c ++ choose_ext header url),
         body).
Proof.
  unfold delivered. split.
  - destruct resp as [| | | status header body | status header body];
      try discriminate; simpl;
      (destruct (status_ok status) eqn:Hs; [| discriminate]);
      simpl; intro H; injection H as <-; eauto 8.
  - intros (header & body & (status & Hs & [-> | ->]) & ->);
      simpl; rewrite Hs; reflexivity.
Qed.

Lemma tasks_length (http : nat -> response) (folder : str) (urls : list str) :
  forall c, List.length (download_tasks_from c http folder urls)
            = List.length urls.
Proof. induction urls; intro c; simpl; auto. Qed.

Lemma tasks_nth (http : nat -> response) (folder : str) (urls : list str) :
  forall c i,
    nth_error (download_tasks_from c http folder urls) i
    = option_map
        (fun url => download_image (http (c + i)%nat) url folder (c + i + 1))
        (nth_error urls i).
Proof.
  induction urls as [| url urls IH]; intros c i.
  - destruct i; reflexivity.
  - destruct i as [| i]; simpl.
    + rewrite Nat.add_0_r. reflexivity.
    + rewrite IH. replace (S c + i)%nat with (c + S i)%nat by lia.
      reflexivity.
Qed.

Lemma tasks_succeeded (http : nat -> response) (folder : str)
  (urls : list str) :
  forall c,
    (List.length
       (filter (fun r => r)
          (List.map returned (download_tasks_from c http folder urls)))
     + failed_count http c (List.length urls))%nat
    = List.length urls.
Proof.
  unfold failed_count.
  induction urls as [| url urls IH]; intro c; simpl; [reflexivity |].
  rewrite download_image_returned.
  specialize (IH (S c)).
  destruct (fails (http c)); simpl; lia.
Qed.

(** C8.  Each task ends by returning a flag, whatever the collaborator
    did; the batch has one result per URL, in the order of the URLs; the
    number of successes is the number of URLs less the number of failed
    requests; and the file of a successful request, as every file that
    is written, is named after the 1-based position of its URL in the
    list, so that no two positions share a file, in whatever order the
    tasks finish. *)
Theorem downloads_are_isolated_and_numbered :
  forall (http : nat -> response) (folder : str) (urls : list str)
         (completion : list nat),
    Permutation completion (seq 0 (List.length urls)) ->
    let b := gather_downloads http folder urls completion in
    let n := List.length urls in
    let k := failed_count http 0 n in
    List.length (download_results b) = n /\
    (k <= n)%nat /\ succeeded_count b = (n - k)%nat /\
    (forall i url,
       nth_error urls i = Some url ->
       nth_error (download_results b) i = Some (negb (fails (http i)))) /\
    (forall i url status header body,
       nth_error urls i = Some url ->
       http i = Responds status header body -> status_ok status = true ->
       In (image_path folder i header url, body) (files_written b)) /\
    (forall f,
       In f (files_written b) ->
       exists i url header body,
         nth_error urls i = Some url /\ delivered (http i) header body /\
         f = (image_path folder i header url, body)) /\
    (forall i j header header' url url',
       image_path folder i header url = image_path folder j header' url' ->
       i = j) /\
    download_results b
    = download_results (gather_downloads http folder urls (seq 0 n)) /\
    Permutation (files_written b)
      (files_written (gather_downloads http folder urls (seq 0 n))).
Proof.
  intros http folder urls completion P b n k.
  pose proof (tasks_succeeded http folder urls 0) as Hs.
  split; [| split; [| split; [| split; [| split; [| split; [| split; [| split]]]]]]].
  - unfold b. simpl. rewrite length_map. apply tasks_length.
  - unfold k, n. lia.
  - unfold b, k, n. simpl. lia.
  - intros i url Hi. unfold b. simpl.
    rewrite nth_error_map, tasks_nth, Hi. simpl.
    rewrite download_image_returned. reflexivity.
  - intros i url status header body Hi Hh Hok. unfold b. simpl.
    apply in_flat_map. exists i. split.
    + eapply Permutation_in; [apply Permutation_sym; exact P |].
      apply in_seq.
      assert (i < List.length urls)%nat by (apply nth_error_Some; congruence).
      lia.
    + rewrite tasks_nth, Hi. simpl. rewrite Hh. simpl. rewrite Hok.
      left. reflexivity.
  - intros f Hf. unfold b in Hf. simpl in Hf.
    apply in_flat_map in Hf as (i & _ & Hf).
    rewrite tasks_nth in Hf.
    destruct (nth_error urls i) as [url |] eqn:Hi; [| contradiction].
    simpl option_map in Hf.
    destruct (download_image (http i) url folder (i + 1)) as [ret [g |]] eqn:Hd;
      [| contradiction].
    destruct Hf as [<- | []].
    assert (Hw : written (download_image (http i) url folder (i + 1)) = Some g)
      by (rewrite Hd; reflexivity).
    apply download_image_written in Hw as (header & body & Hh & ->).
    exists i, url, header, body. auto.
  - intros i j header header' url url'. apply image_path_inj.
  - reflexivity.
  - unfold b. simpl. apply Permutation_flat_map. exact P.
Qed.

End DownloadProperties.

(** Five URLs, two failed requests, the tasks finishing last first: five
    results, three successes, files 005, 003 and 001. *)
Lemma downloads_are_isolated_and_numbered_witness :
  Permutation DownloadSamples.last_first
    (seq 0 (List.length DownloadSamples.urls)) /\
  (let b :=
     @gather_downloads ascii_runtime DownloadSamples.http
       DownloadSamples.folder DownloadSamples.urls DownloadSamples.last_first in
   List.length (download_results b) = 5%nat /\
   succeeded_count b = (5 - 2)%nat /\
   download_results b = [true; false; true; false; true] /\
   List.map fst (files_written b)
   = [lit "downloaded_google_maps_images/Kipriakon/image_005.png";
      lit "downloaded_google_maps_images/Kipriakon/image_003.gif";
      lit "downloaded_google_maps_images/Kipriakon/image_001.png"]).
Proof.
  assert (P : Permutation DownloadSamples.last_first
                (seq 0 (List.length DownloadSamples.urls)))
    by (apply Permutation_sym, (Permutation_rev [0; 1; 2; 3; 4]%nat)).
  split; [exact P |].
  pose proof (@downloads_are_isolated_and_numbered ascii_runtime
                DownloadSamples.http DownloadSamples.folder
                DownloadSamples.urls DownloadSamples.last_first P)
    as (Hlen & _ & Hcount & _).
  split; [exact Hlen | split; [exact Hcount |]].
  split; vm_compute; reflexivity.
Defined.

(* ================================================================== *)
(** * More of the program *)

(** ** Folder names *)

Section SanitizerFacts.

Lemma sub_runs_In (f : char -> bool) (rep : char) (s : str) :
  forall b c,
    In c (sub_runs f rep b s) -> c = rep \/ (In c s /\ f c = false).
Proof.
  induction s as [| x s IH]; intros b c; simpl; [contradiction |].
  destruct (f x) eqn:Hx.
  - destruct b; simpl.
    + intro H. destruct (IH _ _ H) as [-> | [Hin Hf]]; auto.
    + intros [<- | H]; [auto |].
      destruct (IH _ _ H) as [-> | [Hin Hf]]; auto.
  - simpl. intros [<- | H]; [auto |].
    destruct (IH _ _ H) as [-> | [Hin Hf]]; auto.
Qed.

Lemma lstrip_by_suffix (f : char -> bool) (s : str) :
  exists p, s = p ++ lstrip_by f s.
Proof.
  induction s as [| x s [p Hp]]; simpl.
  - exists []. reflexivity.
  - destruct (f x).
    + exists (x :: p). simpl. congruence.
    + exists []. reflexivity.
Qed.

Lemma strip_by_infix (f : char -> bool) (s : str) :
  exists p q, s = p ++ strip_by f s ++ q.
Proof.
  unfold strip_by, rstrip_by.
  destruct (lstrip_by_suffix f s) as [p Hp].
  destruct (lstrip_by_suffix f (rev (lstrip_by f s))) as [q Hq].
  exists p, (rev q).
  rewrite <- rev_app_distr, <- Hq, rev_involutive. exact Hp.
Qed.

Lemma strip_by_In (f : char -> bool) (s : str) (c : char) :
  In c (strip_by f s) -> In c s.
Proof.
  destruct (strip_by_infix f s) as (p & q & E). intro H.
  rewrite E. apply in_or_app. right. apply in_or_app. left. exact H.
Qed.

Lemma slice_to_prefix (k : Z) (s : str) : exists q, s = slice_to k s ++ q.
Proof.
  unfold slice_to. destruct (0 <=? k)%Z; eexists; symmetry;
    apply firstn_skipn.
Qed.

Lemma slice_to_length (k : Z) (s : str) :
  (0 <= k)%Z -> (Z.of_nat (List.length (slice_to k s)) <= k)%Z.
Proof.
  intro H. unfold slice_to.
  replace (0 <=? k)%Z with true by (symmetry; apply Z.leb_le; exact H).
  rewrite length_firstn. lia.
Qed.

Lemma slice_to_cons (k : Z) (x : char) (s : str) :
  (1 <= k)%Z -> exists t, slice_to k (x :: s) = x :: t.
Proof.
  intro H. unfold slice_to.
  replace (0 <=? k)%Z with true by (symmetry; apply Z.leb_le; lia).
  destruct (Z.to_nat k) as [| n] eqn:E; [lia |].
  simpl. eauto.
Qed.

Lemma contains_pair (c : char) (s : str) :
  contains [c; c] s = adjacent c s.
Proof.
  induction s as [| x [| y t] IH]; try reflexivity.
  - simpl. rewrite andb_false_r. reflexivity.
  - change (contains [c; c] (x :: y :: t))
      with (startswith [c; c] (x :: y :: t) || contains [c; c] (y :: t)).
    rewrite IH. simpl startswith. rewrite andb_true_r. reflexivity.
Qed.

Lemma adjacent_app (c : char) (a b : str) :
  adjacent c (a ++ b) = false -> adjacent c a = false /\ adjacent c b = false.
Proof.
  induction a as [| x [| y t] IH]; simpl; intro H.
  - auto.
  - split; [reflexivity |]. destruct b; [reflexivity |].
    apply orb_false_iff in H. tauto.
  - apply orb_false_iff in H as [H1 H2].
    destruct (IH H2) as [Ha Hb]. rewrite H1. auto.
Qed.

Lemma adjacent_tail (c x : char) (s : str) :
  adjacent c (x :: s) = false -> adjacent c s = false.
Proof. intro H. apply (adjacent_app c [x] s H). Qed.

(** Collapsing the runs of [c] leaves no two [c] side by side, and what
    follows a [c] that was just written does not start with [c]. *)
Lemma sub_runs_own (c : char) (s : str) :
  forall b,
    adjacent c (sub_runs (char_eqb c) c b s) = false /\
    (b = true -> forall t, sub_runs (char_eqb c) c b s <> c :: t).
Proof.
  induction s as [| x s IH]; intro b; simpl.
  - split; [reflexivity | discriminate].
  - destruct (char_eqb c x) eqn:Hx.
    + destruct b.
      * apply IH.
      * destruct (IH true) as [Ha Hh]. split; [| discriminate].
        destruct (sub_runs (char_eqb c) c true s) as [| y t] eqn:E;
          [reflexivity |].
        simpl. simpl in Ha. 
        destruct (char_eqb c y) eqn:Hy.
        -- apply char_eqb_eq in Hy. subst y.
           exfalso. exact (Hh eq_refl t eq_refl).
        -- rewrite andb_false_r. exact Ha.
    + destruct (IH false) as [Ha _]. split.
      * destruct (sub_runs (char_eqb c) c false s) as [| y t] eqn:E;
          [reflexivity |].
        simpl. rewrite Hx. exact Ha.
      * intros _ t E. injection E as -> _.
        assert (char_eqb c c = true) by (apply char_eqb_eq; reflexivity).
        congruence.
Qed.

(** Collapsing the runs of [c] brings no two [d] together. *)
Lemma sub_runs_other (c d : char) (s : str) :
  c <> d ->
  adjacent d s = false ->
  adjacent d (sub_runs (char_eqb c) c false s) = false /\
  adjacent d (sub_runs (char_eqb c) c true s) = false /\
  (forall t, sub_runs (char_eqb c) c false s = d :: t ->
             exists t', s = d :: t').
Proof.
  intro Hcd. induction s as [| x s IH]; intro H.
  - simpl. repeat split. discriminate.
  - pose proof (adjacent_tail d x s H) as Hs.
    destruct (IH Hs) as (Hf & Ht & Hh).
    assert (Hdc : char_eqb d c = false).
    { destruct (char_eqb d c) eqn:E; [| reflexivity].
      apply char_eqb_eq in E. congruence. }
    simpl. destruct (char_eqb c x) eqn:Hx.
    + apply char_eqb_eq in Hx. subst x.
      split; [| split; [exact Ht |]].
      * destruct (sub_runs (char_eqb c) c true s) as [| y t] eqn:E;
          [reflexivity |].
        simpl. rewrite Hdc. exact Ht.
      * intros t E. injection E as E _. congruence.
    + assert (Hx' : adjacent d (x :: sub_runs (char_eqb c) c false s) = false).
      { destruct (sub_runs (char_eqb c) c false s) as [| y t] eqn:E;
          [reflexivity |].
        simpl. simpl in Hf. rewrite Hf, orb_false_r.
        destruct (char_eqb d x) eqn:Hdx; [| reflexivity].
        destruct (char_eqb d y) eqn:Hdy; [| reflexivity].
        apply char_eqb_eq in Hdx, Hdy. subst x y.
        destruct (Hh t eq_refl) as [t' ->].
        simpl in H. 
        assert (char_eqb d d = true) by (apply char_eqb_eq; reflexivity).
        rewrite H0 in H. discriminate. }
      split; [exact Hx' | split; [exact Hx' |]].
      intros t E. injection E as -> _. eauto.
Qed.

Lemma lstrip_by_head (f : char -> bool) (s : str) (c : char) (t : str) :
  lstrip_by f s = c :: t -> f c = false.
Proof.
  induction s as [| x s IH]; simpl; [discriminate |].
  destruct (f x) eqn:Hx; [exact IH |].
  intro E. injection E as <- _. exact Hx.
Qed.

Lemma lstrip_by_keeps_last (f : char -> bool) (x : char) (l : str) :
  f x = false -> exists u, lstrip_by f (l ++ [x]) = u ++ [x].
Proof.
  intro Hx. induction l as [| y l [u Hu]]; simpl.
  - rewrite Hx. exists []. reflexivity.
  - destruct (f y); [eauto |]. exists (y :: l). reflexivity.
Qed.

(** What is left after stripping neither starts nor ends with a character
    that is stripped. *)
Lemma strip_by_ends_clean (f : char -> bool) (s : str) :
  (forall c t, strip_by f s = c :: t -> f c = false) /\
  (forall c t, strip_by f s = t ++ [c] -> f c = false).
Proof.
  unfold strip_by, rstrip_by. split.
  - intros c t E.
    destruct (lstrip_by f s) as [| x l] eqn:El; [discriminate |].
    pose proof (@lstrip_by_head f s x l El) as Hx.
    simpl rev in E.
    destruct (@lstrip_by_keeps_last f x (rev l) Hx) as [u Hu].
    rewrite Hu, rev_app_distr in E. simpl in E. injection E as <- _.
    exact Hx.
  - intros c t E.
    apply (f_equal (@rev char)) in E.
    rewrite rev_involutive, rev_app_distr in E. simpl in E.
    eapply lstrip_by_head. exact E.
Qed.

End SanitizerFacts.

Section SanitizerProperties.
Context {R : PyRuntime} {U : Unicodedata}.

(** The name before the last two steps (the fallback and the cut). *)
Lemma sanitize_filename_steps (name : str) (max_length : Z) :
  exists start,
    let cleaned :=
      strip_by (char_in (lit "_-"))
        (sub_runs (char_eqb (chr "-")) (chr "-") false
           (sub_runs (char_eqb (chr "_")) (chr "_") false
              (filter kept
                 (sub_runs separator (chr "_") false
                    (filter (fun c => N.ltb c 128)
                       (normalize_NFKD start)))))) in
    sanitize_filename name max_length
    = slice_to max_length
        (if negb (str_truthy cleaned)
         then lit "sanitized_unknown_place"
         else cleaned).
Proof.
  exists (if negb (str_truthy name) || negb (str_truthy (strip name))
          then lit "unknown_place"
          else name).
  reflexivity.
Qed.

Lemma cleaned_chars (start : str) (c : char) :
  In c (strip_by (char_in (lit "_-"))
          (sub_runs (char_eqb (chr "-")) (chr "-") false
             (sub_runs (char_eqb (chr "_")) (chr "_") false
                (filter kept
                   (sub_runs separator (chr "_") false
                      (filter (fun c => N.ltb c 128)
                         (normalize_NFKD start))))))) ->
  (c < 128)%N /\ reserved c = false /\ kept c = true.
Proof.
  intro H. apply strip_by_In in H.
  assert (Hdash : (chr "-" < 128)%N /\ reserved (chr "-") = false /\
                  kept (chr "-") = true).
  { repeat split. unfold kept. rewrite orb_true_r. reflexivity. }
  assert (Hunder : (chr "_" < 128)%N /\ reserved (chr "_") = false /\
                   kept (chr "_") = true).
  { repeat split. unfold kept. apply orb_true_r. }
  apply sub_runs_In in H as [-> | [H _]]; [exact Hdash |].
  apply sub_runs_In in H as [-> | [H _]]; [exact Hunder |].
  apply filter_In in H as [H Hk].
  apply sub_runs_In in H as [-> | [H Hsep]]; [exact Hunder |].
  apply filter_In in H as [_ Hlt].
  unfold separator in Hsep. apply orb_false_iff in Hsep as [_ Hres].
  repeat split; try assumption. apply N.ltb_lt. exact Hlt.
Qed.

(** X1.  Whatever the name, the sanitized name is no longer than
    [max_length], is not empty when [max_length] is at least 1, and is
    made of ASCII characters none of which is a slash, a backslash or
    another reserved character; where the ASCII word characters of the
    runtime are the letters, the digits and the underscore, it is made of
    letters, digits, underscores and hyphens only. *)
Theorem sanitized_name_is_short_and_plain :
  forall (name : str) (max_length : Z),
    (0 <= max_length)%Z ->
    let r := sanitize_filename name max_length in
    (Z.of_nat (List.length r) <= max_length)%Z /\
    ((1 <= max_length)%Z -> r <> []) /\
    Forall (fun c => (c < 128)%N /\ reserved c = false) r /\
    ((forall c, (c < 128)%N -> uni_isalnum c = true -> ascii_alnum c = true) ->
     Forall (fun c => ascii_alnum c || char_eqb c (chr "-")
                      || char_eqb c (chr "_") = true) r).
Proof.
  intros name max_length Hk r.
  destruct (sanitize_filename_steps name max_length) as [start E].
  cbv zeta in E. subst r. rewrite E. clear E.
  set (cleaned := strip_by _ _).
  set (final := if negb (str_truthy cleaned) then _ else cleaned).
  assert (Hfinal : forall c, In c final ->
            (c < 128)%N /\ reserved c = false /\
            ((forall c, (c < 128)%N -> uni_isalnum c = true ->
                        ascii_alnum c = true) ->
             ascii_alnum c || char_eqb c (chr "-") || char_eqb c (chr "_")
             = true)).
  { intros c Hc. unfold final in Hc.
    destruct (negb (str_truthy cleaned)).
    - repeat (destruct Hc as [<- | Hc]; [repeat split |]);
        contradiction.
    - apply cleaned_chars in Hc as (Hlt & Hres & Hkept).
      repeat split; try assumption.
      intro Htable. unfold kept, is_word in Hkept.
      destruct (uni_isalnum c) eqn:Ha.
      + rewrite (Htable c Hlt Ha). reflexivity.
      + destruct (char_eqb c (chr "_")), (char_eqb c (chr "-"));
          simpl in Hkept; try discriminate;
          rewrite ?orb_true_r; reflexivity. }
  assert (Hnonempty : final <> []).
  { unfold final. destruct cleaned; simpl; discriminate. }
  destruct (slice_to_prefix max_length final) as [q Hq].
  split; [apply slice_to_length; exact Hk |].
  split; [| split].
  - intro H1. destruct final as [| x t]; [contradiction |].
    destruct (slice_to_cons x t H1) as [t' ->]. discriminate.
  - apply Forall_forall. intros c Hc.
    destruct (Hfinal c) as (Hlt & Hres & _); [| auto].
    rewrite Hq. apply in_or_app. left. exact Hc.
  - intro Htable. apply Forall_forall. intros c Hc.
    destruct (Hfinal c) as (_ & _ & H); [| auto].
    rewrite Hq. apply in_or_app. left. exact Hc.
Qed.

(** X2.  The sanitized name never starts with an underscore or a hyphen
    and never holds two underscores or two hyphens side by side. *)
Theorem sanitized_name_has_single_inner_separators :
  forall (name : str) (max_length : Z),
    let r := sanitize_filename name max_length in
    (forall c t, r = c :: t -> c <> chr "_" /\ c <> chr "-") /\
    contains (lit "__") r = false /\
    contains (lit "--") r = false.
Proof.
  intros name max_length r.
  destruct (sanitize_filename_steps name max_length) as [start E].
  cbv zeta in E. subst r. rewrite E. clear E.
  set (collapsed := sub_runs (char_eqb (chr "-")) (chr "-") false _).
  set (cleaned := strip_by _ collapsed).
  set (final := if negb (str_truthy cleaned) then _ else cleaned).
  assert (Hcollapsed : adjacent (chr "_") collapsed = false /\
                       adjacent (chr "-") collapsed = false).
  { unfold collapsed. split.
    - apply sub_runs_other; [discriminate |].
      apply (sub_runs_own (chr "_") _ false).
    - apply (sub_runs_own (chr "-") _ false). }
  assert (Hcleaned : adjacent (chr "_") cleaned = false /\
                     adjacent (chr "-") cleaned = false).
  { destruct (strip_by_infix (char_in (lit "_-")) collapsed) as (p & q & Ep).
    fold cleaned in Ep. destruct Hcollapsed as [H1 H2].
    rewrite Ep in H1, H2.
    apply adjacent_app in H1 as [_ H1]. apply adjacent_app in H1 as [H1 _].
    apply adjacent_app in H2 as [_ H2]. apply adjacent_app in H2 as [H2 _].
    auto. }
  assert (Hfinal : (forall c t, final = c :: t ->
                      c <> chr "_" /\ c <> chr "-") /\
                   adjacent (chr "_") final = false /\
                   adjacent (chr "-") final = false).
  { unfold final. destruct (negb (str_truthy cleaned)).
    - split; [| split; reflexivity].
      intros c t Ec. injection Ec as <- _. split; discriminate.
    - split; [| exact Hcleaned].
      intros c t Ec.
      pose proof (proj1 (strip_by_ends_clean (char_in (lit "_-")) collapsed)
                    c t Ec) as Hc.
      split; intros ->; discriminate. }
  destruct Hfinal as (Hhead & Hu & Hd).
  destruct (slice_to_prefix max_length final) as [q Hq].
  rewrite Hq in Hu, Hd.
  apply adjacent_app in Hu as [Hu _]. apply adjacent_app in Hd as [Hd _].
  split; [| split].
  - intros c t Ec. rewrite Ec in Hq. simpl in Hq. eapply Hhead. exact Hq.
  - change (lit "__") with [chr "_"; chr "_"].
    rewrite contains_pair. exact Hu.
  - change (lit "--") with [chr "-"; chr "-"].
    rewrite contains_pair. exact Hd.
Qed.

End SanitizerProperties.

(** A name with spaces, an apostrophe, an ampersand and a slash, cut at 200
    and at 8 characters. *)
Lemma sanitized_name_is_short_and_plain_witness :
  (0 <= 8)%Z /\
  @sanitize_filename ascii_runtime MoreSamples.ascii_nfkd
    (lit " Joe's Bar & Grill / SF ") 200 = lit "Joes_Bar_Grill_SF" /\
  (Z.of_nat (List.length
               (@sanitize_filename ascii_runtime MoreSamples.ascii_nfkd
                  (lit " Joe's Bar & Grill / SF ") 8)) <= 8)%Z.
Proof.
  split; [lia | split; [vm_compute; reflexivity |]].
  exact (proj1 (@sanitized_name_is_short_and_plain ascii_runtime
                  MoreSamples.ascii_nfkd (lit " Joe's Bar & Grill / SF ") 8
                  ltac:(lia))).
Defined.

(** ** The links of the results feed *)

Section LinkProperties.
Context {R : PyRuntime}.

Lemma full_url_of_http (el : link_el) (u : str) :
  full_url_of el = Some u -> startswith (lit "http") u = true.
Proof.
  destruct el as [| [href |] aria text]; try discriminate.
  unfold full_url_of.
  destruct (str_truthy href && _); [| discriminate].
  destruct (startswith (lit "http") href) eqn:E; intro H; injection H as <-.
  - exact E.
  - reflexivity.
Qed.

Lemma http_truthy (u : str) :
  startswith (lit "http") u = true -> str_truthy u = true.
Proof. destruct u; [discriminate | reflexivity]. Qed.

Lemma links_loop_cons (el : link_el) (els : list link_el) (st : link_state) :
  links_loop (el :: els) st
  = if (MAX_PLACES_TO_PROCESS <=? processed_links_count st)%nat then st
    else
      match full_url_of el with
      | Some full_url =>
          if str_truthy full_url &&
             negb (set_mem str_eq_dec full_url (unique_hrefs st))
          then
            links_loop els
              {| place_urls_to_process := place_urls_to_process st ++ [full_url];
                 unique_hrefs := set_add str_eq_dec full_url (unique_hrefs st);
                 processed_links_count := processed_links_count st + 1 |}
          else links_loop els st
      | None => links_loop els st
      end.
Proof. reflexivity. Qed.

Lemma candidates_cons (el : link_el) (els : list link_el) :
  candidates (el :: els)
  = match full_url_of el with Some u => [u] | None => [] end
    ++ candidates els.
Proof. reflexivity. Qed.

Lemma links_loop_spec (els : list link_el) :
  forall st,
    place_urls_to_process (links_loop els st)
    = place_urls_to_process st ++
      firstn (MAX_PLACES_TO_PROCESS - processed_links_count st)
        (first_occurrences (unique_hrefs st) (candidates els)).
Proof.
  induction els as [| el els IH]; intro st.
  - simpl. rewrite firstn_nil, app_nil_r. reflexivity.
  - rewrite links_loop_cons, candidates_cons.
    destruct (Nat.leb_spec MAX_PLACES_TO_PROCESS (processed_links_count st))
      as [Hfull | Hroom].
    + replace (MAX_PLACES_TO_PROCESS - processed_links_count st)%nat
        with 0%nat by lia.
      rewrite firstn_O, app_nil_r. reflexivity.
    + destruct (full_url_of el) as [u |] eqn:Eu; [| apply IH].
      rewrite (http_truthy u (full_url_of_http el Eu)).
      change ([u] ++ candidates els) with (u :: candidates els).
      change (first_occurrences (unique_hrefs st) (u :: candidates els))
        with (if set_mem str_eq_dec u (unique_hrefs st)
              then first_occurrences (unique_hrefs st) (candidates els)
              else u :: first_occurrences
                          (set_add str_eq_dec u (unique_hrefs st))
                          (candidates els)).
      destruct (set_mem str_eq_dec u (unique_hrefs st));
        [apply IH |].
      cbn [andb negb]. rewrite IH.
      cbn [place_urls_to_process unique_hrefs processed_links_count].
      replace (MAX_PLACES_TO_PROCESS - processed_links_count st)%nat
        with (S (MAX_PLACES_TO_PROCESS - (processed_links_count st + 1)))
        by lia.
      rewrite firstn_cons, <- app_assoc. reflexivity.
Qed.

Lemma first_occurrences_In (l : list str) :
  forall seen x,
    In x (first_occurrences seen l) -> In x l /\ ~ In x seen.
Proof.
  induction l as [| y l IH]; intros seen x; simpl; [contradiction |].
  destruct (set_mem str_eq_dec y seen) eqn:Ey.
  - intro H. destruct (IH _ _ H). auto.
  - intros [<- | H].
    + split; [auto |]. intro Hin.
      apply (set_mem_complete1 str_eq_dec) in Ey. contradiction.
    + destruct (IH _ _ H) as [Hin Hnot]. split; [auto |].
      intro Hs. apply Hnot. apply set_add_intro1. exact Hs.
Qed.

Lemma first_occurrences_NoDup (l : list str) :
  forall seen, NoDup (first_occurrences seen l).
Proof.
  induction l as [| y l IH]; intro seen; simpl; [constructor |].
  destruct (set_mem str_eq_dec y seen); [apply IH |].
  constructor; [| apply IH].
  intro H. apply first_occurrences_In in H as [_ Hnot].
  apply Hnot. apply set_add_intro2. reflexivity.
Qed.

Lemma first_occurrences_complete (l : list str) :
  forall seen x,
    In x l -> ~ In x seen -> In x (first_occurrences seen l).
Proof.
  induction l as [| y l IH]; intros seen x; simpl; [contradiction |].
  intros Hin Hnot.
  destruct (set_mem str_eq_dec y seen) eqn:Ey.
  - apply (set_mem_correct1 str_eq_dec) in Ey.
    destruct Hin as [-> | Hin]; [contradiction | auto].
  - destruct (str_eq_dec y x) as [-> | Hne]; [left; reflexivity |].
    right. destruct Hin as [-> | Hin]; [contradiction |].
    apply IH; [exact Hin |].
    intro Hs. apply set_add_elim in Hs as [-> | Hs]; contradiction.
Qed.

(** X3.  The place URLs taken from the feed are the first three distinct
    URLs of the links that have an [href] and a label or a text, in the
    order of the feed: at most [MAX_PLACES_TO_PROCESS] of them, none
    twice, every one absolute; and when the feed has no more than three
    distinct such URLs, none is lost. *)
Theorem place_urls_are_the_first_distinct_links :
  forall els : list link_el,
    let urls := collect_place_urls els in
    urls = firstn MAX_PLACES_TO_PROCESS (first_occurrences [] (candidates els))
    /\ (List.length urls <= MAX_PLACES_TO_PROCESS)%nat
    /\ NoDup urls
    /\ (forall u, In u urls ->
          startswith (lit "http") u = true /\
          exists el, In el els /\ full_url_of el = Some u)
    /\ ((List.length (first_occurrences [] (candidates els))
         <= MAX_PLACES_TO_PROCESS)%nat ->
        forall el u, In el els -> full_url_of el = Some u -> In u urls).
Proof.
  intros els urls.
  assert (E : urls = firstn MAX_PLACES_TO_PROCESS
                       (first_occurrences [] (candidates els))).
  { unfold urls, collect_place_urls. rewrite links_loop_spec. reflexivity. }
  assert (Hcand : forall u, In u (candidates els) <->
                            exists el, In el els /\ full_url_of el = Some u).
  { intro u. unfold candidates. rewrite in_flat_map. split.
    - intros (el & Hin & Hu). exists el. split; [exact Hin |].
      destruct (full_url_of el); [| contradiction].
      destruct Hu as [-> | []]. reflexivity.
    - intros (el & Hin & Hu). exists el. split; [exact Hin |].
      rewrite Hu. left. reflexivity. }
  split; [exact E |]. rewrite E.
  split; [apply firstn_le_length |].
  split.
  - pose proof (first_occurrences_NoDup (candidates els) []) as ND.
    rewrite <- (firstn_skipn MAX_PLACES_TO_PROCESS) in ND.
    apply NoDup_app_remove_r in ND. exact ND.
  - split.
    + intros u Hu.
      assert (Hu' : In u (first_occurrences [] (candidates els))).
      { rewrite <- (firstn_skipn MAX_PLACES_TO_PROCESS).
        apply in_or_app. left. exact Hu. }
      apply first_occurrences_In in Hu' as [Hu' _]. rename Hu' into Hc.
      clear Hu. rename Hc into Hu.
      apply Hcand in Hu as (el & Hin & Hel).
      split; [eapply full_url_of_http; exact Hel | eauto].
    + intros Hfew el u Hin Hel.
      rewrite firstn_all2 by exact Hfew.
      apply first_occurrences_complete; [| intros []].
      apply Hcand. eauto.
Qed.

End LinkProperties.

(** A feed of seven links: a repeated place, a link that raises and a
    link with no label are passed over, and the fifth place is not
    reached. *)
Lemma place_urls_are_the_first_distinct_links_witness :
  @collect_place_urls ascii_runtime MoreSamples.feed
  = [lit "https://www.google.com/maps/place/A";
     lit "https://www.google.com/maps/place/C";
     lit "https://www.google.com/maps/place/D"] /\
  NoDup (@collect_place_urls ascii_runtime MoreSamples.feed).
Proof.
  split; [vm_compute; reflexivity |].
  exact (proj1 (proj2 (proj2
           (@place_urls_are_the_first_distinct_links ascii_runtime
              MoreSamples.feed)))).
Defined.

(** ** The places of one run *)

Section PlaceProperties.
Context {R : PyRuntime}.









End PlaceProperties.


(** ** Lookups one after the other *)

Section LookupComposition.

Lemma get_nested_value_of_none (path : list path_key) :
  get_nested_value VNull path VNull = VNull.
Proof. destruct path as [| [i | k |] rest]; reflexivity. Qed.

(** X5.  With [None] for the default, as everywhere in the program,
    looking up a path and then another from what was found is looking up
    the two paths joined: the title is at [[1, 11, 0, 0, 1]] of the
    payload and the address at [[1, 11, 0, 0, 2]]. *)
Theorem lookups_compose :
  forall (data : value) (p q : list path_key),
    get_nested_value data (p ++ q) VNull
    = get_nested_value (get_nested_value data p VNull) q VNull.
Proof.
  intros data p. revert data.
  induction p as [| key p IH]; intros data q; [reflexivity |].
  destruct key as [i | k |]; simpl;
    try (symmetry; apply get_nested_value_of_none).
  - destruct data; try (symmetry; apply get_nested_value_of_none).
    destruct ((0 <=? i)%Z && (i <? Z.of_nat (List.length items))%Z);
      [apply IH | symmetry; apply get_nested_value_of_none].
  - destruct data; try (symmetry; apply get_nested_value_of_none).
    destruct (dict_get k items);
      [apply IH | symmetry; apply get_nested_value_of_none].
Qed.

End LookupComposition.

(** ** Mining again, mining in parts *)

Section MiningComposition.
Context {R : PyRuntime}.

Lemma normalize_fixed (s : str) : normalize (normalize s) = normalize s.
Proof.
  destruct (normalize_cases s) as [(t & -> & ->) | [Hs ->]].
  - reflexivity.
  - unfold normalize. rewrite Hs. reflexivity.
Qed.

(** An accepted URL is accepted again, as itself. *)
Lemma classify_fixed (s u : str) : classify s = Some u -> classify u = Some u.
Proof.
  intro H. apply classify_Some in H as (Hm & -> & Ht & Hp).
  unfold classify.
  rewrite normalize_fullmatch, Hm, normalize_fixed, Ht, Hp. reflexivity.
Qed.

Lemma occurs_strings (l : list str) (s : str) :
  occurs s (VList (List.map VStr l)) <-> In s l.
Proof.
  split.
  - intro H. inversion H as [? Hin | | ? v Hin Hv |]; subst.
    + apply in_map_iff in Hin as (x & E & Hx). injection E as ->. exact Hx.
    + apply in_map_iff in Hin as (x & <- & _). inversion Hv.
  - intro H. apply occurs_element. apply in_map. exact H.
Qed.

Lemma occurs_append (a b : list value) (s : str) :
  occurs s (VList (a ++ b)) <-> occurs s (VList a) \/ occurs s (VList b).
Proof.
  split.
  - intro H. inversion H as [? Hin | | ? v Hin Hv |]; subst;
      apply in_app_or in Hin as [Hin | Hin];
      solve [ left; apply occurs_element; exact Hin
            | right; apply occurs_element; exact Hin
            | left; eapply occurs_in_element; eassumption
            | right; eapply occurs_in_element; eassumption ].
  - intros [H | H]; inversion H as [? Hin | | ? v Hin Hv |]; subst;
      solve [ apply occurs_element; apply in_or_app; auto
            | eapply occurs_in_element; [apply in_or_app |]; eauto ].
Qed.

(** X6.  Mining is idempotent: every URL of the list is accepted again as
    itself, so mining the list of URLs gives the same list. *)
Theorem mining_the_result_changes_nothing :
  forall d : value,
    Forall (fun u => classify u = Some u) (image_urls_of d) /\
    image_urls_of (VList (List.map VStr (image_urls_of d)))
    = image_urls_of d.
Proof.
  intro d.
  assert (Hfix : forall u, In u (image_urls_of d) -> classify u = Some u).
  { intros u Hu. apply image_urls_of_In in Hu as (s & _ & Hc).
    eapply classify_fixed. exact Hc. }
  split; [apply Forall_forall; exact Hfix |].
  apply image_urls_of_ext. intro u. rewrite !mine_In. split.
  - intros (s & Ho & Hc). apply occurs_strings in Ho.
    pose proof (Hfix s Ho) as Hs. rewrite Hs in Hc. injection Hc as <-.
    apply image_urls_of_In in Ho. exact Ho.
  - intros (s & Ho & Hc).
    assert (Hu : In u (image_urls_of d))
      by (apply image_urls_of_In; eauto).
    exists u. split; [apply occurs_strings; exact Hu | apply Hfix; exact Hu].
Qed.

(** X7.  Mining a sequence in two parts finds what mining it whole finds:
    a URL is in the list of [a ++ b] exactly when it is in the list of
    [a] or in the list of [b], and putting the two parts in sequences of
    their own changes nothing. *)
Theorem mining_splits_over_sequences :
  forall a b : list value,
    (forall u,
       In u (image_urls_of (VList (a ++ b))) <->
       In u (image_urls_of (VList a)) \/ In u (image_urls_of (VList b))) /\
    image_urls_of (VList [VList a; VList b]) = image_urls_of (VList (a ++ b)).
Proof.
  intros a b.
  assert (Hnest : forall s,
             occurs s (VList [VList a; VList b]) <-> occurs s (VList (a ++ b))).
  { intro s. rewrite occurs_append. split.
    - intro H. inversion H as [? Hin | | ? v Hin Hv |]; subst.
      + destruct Hin as [E | [E | []]]; discriminate.
      + destruct Hin as [<- | [<- | []]]; auto.
    - intros [H | H]; eapply occurs_in_element; try exact H; simpl; auto. }
  split.
  - intro u. rewrite !image_urls_of_In. split.
    + intros (s & Ho & Hc). apply occurs_append in Ho as [Ho | Ho]; eauto.
    + intros [(s & Ho & Hc) | (s & Ho & Hc)]; exists s;
        (split; [apply occurs_append; auto | exact Hc]).
  - apply image_urls_of_ext. intro u. rewrite !mine_In.
    split; intros (s & Ho & Hc); exists s;
      (split; [apply Hnest; exact Ho | exact Hc]).
Qed.

End MiningComposition.

(** ** The extension of a downloaded file *)

Section ExtensionProperties.
Context {R : PyRuntime}.

(** X8.  The extension of a written file is always one of [.jpg],
    [.jpeg], [.png], [.gif] and [.webp]; when the content type names one
    of the four image types the URL plays no part, and [.jpeg] can only
    come from the URL. *)
Theorem extension_is_always_known :
  forall (header : option str) (url : str),
    In (choose_ext header url) known_exts /\
    (forall h url',
       header = Some h ->
       (contains (lit "jpeg") (str_lower h) || contains (lit "jpg") (str_lower h)
        || contains (lit "png") (str_lower h)
        || contains (lit "gif") (str_lower h)
        || contains (lit "webp") (str_lower h)) = true ->
       choose_ext header url = choose_ext header url' /\
       choose_ext header url <> lit ".jpeg").
Proof.
  intros header url. split.
  - unfold choose_ext.
    repeat match goal with
           | |- context [if existsb ?f ?l then _ else _] =>
               destruct (existsb f l) eqn:Ex
           | |- context [if ?b then _ else _] => destruct b
           end;
      try (simpl; tauto).
    apply existsb_exists in Ex as (x & Hin & Hx).
    apply str_eqb_eq in Hx. rewrite Hx. exact Hin.
  - intros h url' -> H. unfold choose_ext.
    destruct (contains (lit "jpeg") (str_lower h) ||
              contains (lit "jpg") (str_lower h));
      [split; [reflexivity | discriminate] |].
    destruct (contains (lit "png") (str_lower h));
      [split; [reflexivity | discriminate] |].
    destruct (contains (lit "gif") (str_lower h));
      [split; [reflexivity | discriminate] |].
    destruct (contains (lit "webp") (str_lower h));
      [split; [reflexivity | discriminate] |].
    discriminate.
Qed.

End ExtensionProperties.

(** A PNG content type decides, whatever the URL says. *)
Lemma extension_is_always_known_witness :
  @choose_ext ascii_runtime (Some (lit "image/PNG; q=1")) (lit "a/b.gif")
  = lit ".png" /\
  @choose_ext ascii_runtime (Some (lit "image/PNG; q=1")) (lit "a/b.gif")
  = @choose_ext ascii_runtime (Some (lit "image/PNG; q=1")) (lit "c.webp").
Proof.
  split; [vm_compute; reflexivity |].
  exact (proj1 (proj2 (@extension_is_always_known ascii_runtime
                         (Some (lit "image/PNG; q=1")) (lit "a/b.gif"))
                  (lit "image/PNG; q=1") (lit "c.webp") eq_refl eq_refl)).
Defined.

(** ** The URL that is requested *)

Section RequestUrlProperties.
Context {R : PyRuntime}.

Lemma url_no_size_eq (url : str) :
  url_no_size url
  = if fullmatch size_suffix url then []
    else if fullmatch (Seq size_suffix (Sym (char_eqb 10%N))) url then [10%N]
    else match url with
         | [] => []
         | c :: rest => c :: url_no_size rest
         end.
Proof. destruct url; reflexivity. Qed.

Lemma size_suffix_starts (s : str) :
  matches size_suffix s -> exists t, s = chr "=" :: t.
Proof.
  unfold size_suffix. intro H.
  inversion H as [| | ? ? s1 s2 M1 M2 | | | |]; subst.
  inversion M1 as [| ? c Hc | | | | |]; subst.
  apply char_eqb_eq in Hc. subst c. simpl. eauto.
Qed.

Lemma no_match_without_equals (c : char) (s : str) :
  c <> chr "=" ->
  fullmatch size_suffix (c :: s) = false /\
  fullmatch (Seq size_suffix (Sym (char_eqb 10%N))) (c :: s) = false.
Proof.
  intro Hc. split.
  - destruct (fullmatch size_suffix (c :: s)) eqn:E; [| reflexivity].
    apply fullmatch_matches, size_suffix_starts in E as [t Et].
    injection Et as Et _. exfalso. apply Hc. exact Et.
  - destruct (fullmatch (Seq size_suffix (Sym (char_eqb 10%N))) (c :: s))
      eqn:E; [| reflexivity].
    apply fullmatch_matches in E.
    inversion E as [| | ? ? s1 s2 M1 M2 E1 E2 | | | |]; subst.
    apply size_suffix_starts in M1 as [t ->].
    injection E2 as E2 _. exfalso. apply Hc. symmetry. exact E2.
Qed.

Lemma matches_star_sym (f : char -> bool) (l : str) :
  Forall (fun c => f c = true) l -> matches (Star (Sym f)) l.
Proof.
  induction 1 as [| c l Hc _ IH]; [constructor |].
  change (c :: l) with ([c] ++ l).
  constructor; [constructor; exact Hc | exact IH].
Qed.

Lemma matches_plus_sym (f : char -> bool) (l : str) :
  Forall (fun c => f c = true) l -> l <> [] -> matches (Plus (Sym f)) l.
Proof.
  intros H Hne. destruct l as [| c l]; [contradiction |].
  inversion H; subst. unfold Plus.
  change (c :: l) with ([c] ++ l).
  constructor; [constructor; assumption | apply matches_star_sym; assumption].
Qed.

Lemma plus_sym_last (f : char -> bool) (s : str) :
  matches (Plus (Sym f)) s -> exists t c, s = t ++ [c] /\ f c = true.
Proof.
  unfold Plus. intro H.
  inversion H as [| | ? ? s1 s2 M1 M2 | | | |]; subst.
  inversion M1 as [| ? c Hc | | | | |]; subst.
  clear H M1. remember (Star (Sym f)) as r eqn:Er.
  revert c Hc.
  induction M2 as [| | | | | | r' a b Ma Mb IHa IHb]; try discriminate;
    intros c Hc.
  - exists [], c. auto.
  - injection Er as ->.
    inversion Ma as [| ? x Hx | | | | |]; subst.
    destruct (IHb eq_refl x Hx) as (t & y & Et & Hy).
    exists (c :: t), y. split; [| exact Hy].
    simpl. simpl in Et. rewrite Et. reflexivity.
Qed.

(** A string of the image-host shape ends with a character of the path. *)
Lemma image_host_last (u : str) :
  fullmatch IMAGE_HOSTS_REGEX u = true ->
  exists t c, u = t ++ [c] /\ url_path_char c = true.
Proof.
  intro H. apply fullmatch_matches in H.
  unfold IMAGE_HOSTS_REGEX, host_and_path in H.
  inversion H as [| | ? ? s1 s2 _ M2 | | | |]; subst.
  inversion M2 as [| | ? ? s3 s4 _ M4 | | | |]; subst.
  inversion M4 as [| | ? ? s5 s6 _ M6 | | | |]; subst.
  inversion M6 as [| | ? ? s7 s8 _ M8 | | | |]; subst.
  apply plus_sym_last in M8 as (t & c & -> & Hc).
  exists (s1 ++ s3 ++ s5 ++ s7 ++ t), c.
  rewrite <- !app_assoc. auto.
Qed.

Lemma url_no_size_whole (s : str) :
  fullmatch size_suffix s = true -> url_no_size s = [].
Proof. intro H. rewrite url_no_size_eq, H. reflexivity. Qed.

(** What is taken out is one match of the pattern, at the end of the URL
    or just before a newline that ends it. *)
Lemma url_no_size_cuts (url : str) :
  exists p tail nl,
    url = p ++ tail ++ nl /\ url_no_size url = p ++ nl /\
    (nl = [] \/ nl = [10%N]) /\
    (tail = [] \/ fullmatch size_suffix tail = true).
Proof.
  induction url as [| c rest IH].
  - exists [], [], []. rewrite url_no_size_eq. simpl. auto.
  - rewrite url_no_size_eq.
    destruct (fullmatch size_suffix (c :: rest)) eqn:E1.
    { exists [], (c :: rest), []. rewrite app_nil_r. auto. }
    destruct (fullmatch (Seq size_suffix (Sym (char_eqb 10%N))) (c :: rest))
      eqn:E2.
    { apply fullmatch_matches in E2.
      inversion E2 as [| | ? ? s1 s2 M1 M2 Ea Eb | | | |]; subst.
      inversion M2 as [| ? x Hx | | | | |]; subst.
      apply char_eqb_eq in Hx. subst x.
      exists [], s1, [10%N]. rewrite Eb.
      repeat split; auto. right. apply fullmatch_matches. exact M1. }
    destruct IH as (p & tail & nl & E & En & Hnl & Ht).
    exists (c :: p), tail, nl. simpl. rewrite En, <- E. auto.
Qed.

(** X9.  The URL that is requested is the image URL with at most one size
    suffix cut off its end.  A URL with no equals sign is requested as it
    is; a URL [base=sN], [base=wN] or [base=hN] with no equals sign in
    [base] is requested as [base]; and for every URL of a mined list the
    requested URL is the start of it. *)
Theorem requested_url_is_the_url_less_a_size_suffix :
  (forall url,
     ~ In (chr "=") url -> url_no_size url = url) /\
  (forall base x digits,
     ~ In (chr "=") base -> char_in (lit "swh") x = true ->
     digits <> [] -> Forall (fun c => is_digit c = true) digits ->
     url_no_size (base ++ chr "=" :: x :: digits) = base) /\
  (forall d u,
     In u (image_urls_of d) ->
     exists tail,
       u = url_no_size u ++ tail /\
       (tail = [] \/ fullmatch size_suffix tail = true)).
Proof.
  split; [| split].
  - intros url Hno. induction url as [| c rest IH]; [reflexivity |].
    rewrite url_no_size_eq.
    assert (Hc : c <> chr "=") by (intros ->; apply Hno; left; reflexivity).
    destruct (no_match_without_equals rest Hc) as [-> ->].
    rewrite IH; [reflexivity |]. intro H. apply Hno. right. exact H.
  - intros base x digits Hno Hx Hne Hd.
    induction base as [| c rest IH].
    + change ([] ++ chr "=" :: x :: digits) with (chr "=" :: x :: digits).
      apply url_no_size_whole. apply fullmatch_matches.
      cbv delta [size_suffix].
      change (chr "=" :: x :: digits) with ([chr "="] ++ [x] ++ digits).
      constructor; [constructor; reflexivity |].
      constructor; [constructor; exact Hx |].
      rewrite <- (app_nil_r digits).
      constructor; [apply matches_plus_sym; assumption |].
      change (@nil char) with (@nil char ++ []).
      constructor; apply MAltR; constructor.
    + change ((c :: rest) ++ chr "=" :: x :: digits)
        with (c :: (rest ++ chr "=" :: x :: digits)).
      rewrite url_no_size_eq.
      assert (Hc : c <> chr "=") by (intros ->; apply Hno; left; reflexivity).
      destruct (no_match_without_equals (rest ++ chr "=" :: x :: digits) Hc)
        as [-> ->].
      rewrite IH; [reflexivity |]. intro H. apply Hno. right. exact H.
  - intros d u Hu.
    apply image_urls_of_In in Hu as (s & _ & Hc).
    apply classify_Some in Hc as (Hm & -> & _).
    rewrite <- normalize_fullmatch in Hm.
    apply image_host_last in Hm as (t & c & Eu & Hpath).
    destruct (url_no_size_cuts (normalize s)) as (p & tail & nl & E & En & Hnl & Ht).
    destruct Hnl as [-> | ->].
    + rewrite app_nil_r in E, En. exists tail. rewrite En. auto.
    + exfalso. rewrite E in Eu.
      rewrite !app_assoc in Eu. apply app_inj_tail in Eu as [_ <-].
      discriminate.
Qed.

End RequestUrlProperties.

(** A size suffix is cut; the usual suffix with its two flags is not. *)
Lemma requested_url_is_the_url_less_a_size_suffix_witness :
  @url_no_size ascii_runtime (lit "https://lh3.googleusercontent.com/p/AF1=s1600")
  = lit "https://lh3.googleusercontent.com/p/AF1" /\
  @url_no_size ascii_runtime Samples.photo_absolute = Samples.photo_absolute /\
  @url_no_size ascii_runtime (lit "https://lh3.googleusercontent.com/p/AF1=w408-h306-k")
  = lit "https://lh3.googleusercontent.com/p/AF1".
Proof.
  split; [| split; vm_compute; reflexivity].
  refine (proj1 (proj2 (@requested_url_is_the_url_less_a_size_suffix
                          ascii_runtime))
            (lit "https://lh3.googleusercontent.com/p/AF1") (chr "s")
            (lit "1600") _ eq_refl _ _).
  - vm_compute. intuition discriminate.
  - discriminate.
  - repeat constructor.
Defined.

(** ** The fields of the record, once more *)

Section FieldProperties.
Context {R : PyRuntime}.

Lemma strip_stripped (s : str) : stripped (strip s).
Proof.
  unfold stripped, strip.
  destruct (strip_by_ends_clean uni_isspace s) as [H1 H2]. split.
  - intros c t E. eapply H1. exact E.
  - intros c t E. eapply H2. exact E.
Qed.

Lemma extract_title_stripped (darray : value) (t : str) :
  extract_title darray = Some t -> stripped t.
Proof.
  unfold extract_title.
  destruct (get_nested_value darray [KInt 1] VNull) as [| | | | s | |];
    try discriminate.
  destruct (truthy (VStr s)); [| discriminate].
  intro H. injection H as <-. apply strip_stripped.
Qed.

Lemma extract_address_stripped (title : option str) (darray : value)
  (a : str) :
  extract_address title darray = Some a -> stripped a.
Proof.
  unfold extract_address. cbv zeta.
  destruct (get_nested_value darray [KInt 2] VNull) as [| | | | | parts |];
    (destruct (truthy _); [| discriminate]);
    try (intro H; injection H as <-; apply strip_stripped).
  destruct title as [t |]; [destruct (str_truthy t && _) |];
    intro H; injection H as <-; apply strip_stripped.
Qed.

(** X10.  Whatever the payload, a title or an address of the record has no
    white space at either end. *)
Theorem title_and_address_have_no_outer_white_space :
  forall (url : str) (obj : value),
    (forall t, title (process_payload url obj) = Some t -> stripped t) /\
    (forall a, address (process_payload url obj) = Some a -> stripped a).
Proof.
  intros url obj. unfold process_payload.
  destruct (truthy obj); cbn [title address];
    [| split; intros ? H; discriminate H].
  destruct (truthy (get_nested_value obj darray_path VNull));
    [| split; intros ? H; discriminate H].
  split.
  - intros t. apply extract_title_stripped.
  - intros a. apply extract_address_stripped.
Qed.




End FieldProperties.


(** ** Sequence numbers *)

Section SequenceNumberRoundTrip.

(** X12.  The sequence number of a file name can be read back from its
    digits; it is written with three digits up to 999 and with as many as
    it takes from 1000 on, so no number is ever cut. *)
Theorem sequence_number_round_trip :
  forall n : nat,
    digits_fold (format_03d n) 0 = n /\
    Forall (fun c => is_ascii_digit c = true) (format_03d n) /\
    (3 <= List.length (format_03d n))%nat /\
    ((n < 1000)%nat -> List.length (format_03d n) = 3%nat).
Proof.
  intro n. split; [apply format_03d_value |].
  split; [apply format_03d_digits |].
  split.
  - unfold format_03d. rewrite length_app, repeat_length. lia.
  - intro Hn.
    assert (Hall : forallb (fun k => Nat.eqb (List.length (format_03d k)) 3)
                     (seq 0 1000) = true) by (vm_compute; reflexivity).
    rewrite forallb_forall in Hall.
    apply Nat.eqb_eq. apply Hall. apply in_seq. lia.
Qed.

End SequenceNumberRoundTrip.

(** The seventh and the 1234th image. *)
Lemma sequence_number_round_trip_witness :
  (7 < 1000)%nat /\ format_03d 7 = lit "007" /\ format_03d 1234 = lit "1234" /\
  List.length (format_03d 7) = 3%nat.
Proof.
  split; [lia | split; [reflexivity | split; [reflexivity |]]].
  exact (proj2 (proj2 (proj2 (sequence_number_round_trip 7))) ltac:(lia)).
Defined.

(** The name of the bar starts with a letter. *)
Lemma sanitized_name_has_single_inner_separators_witness :
  @sanitize_filename ascii_runtime MoreSamples.ascii_nfkd
    (lit " Joe's Bar & Grill / SF ") 200
  = chr "J" :: lit "oes_Bar_Grill_SF" /\
  (chr "J" <> chr "_" /\ chr "J" <> chr "-").
Proof.
  assert (E : @sanitize_filename ascii_runtime MoreSamples.ascii_nfkd
                (lit " Joe's Bar & Grill / SF ") 200
              = chr "J" :: lit "oes_Bar_Grill_SF") by (vm_compute; reflexivity).
  split; [exact E |].
  exact (proj1 (@sanitized_name_has_single_inner_separators ascii_runtime
                  MoreSamples.ascii_nfkd (lit " Joe's Bar & Grill / SF ") 200)
           _ _ E).
Defined.

(** The title of the Café De Paris block has no white space around it. *)
Lemma title_and_address_have_no_outer_white_space_witness :
  title (@process_payload ascii_runtime Samples.place
           (RecordSamples.around RecordSamples.cafe_block))
  = Some RecordSamples.cafe /\
  @stripped ascii_runtime RecordSamples.cafe.
Proof.
  assert (E : title (@process_payload ascii_runtime Samples.place
                       (RecordSamples.around RecordSamples.cafe_block))
              = Some RecordSamples.cafe) by (vm_compute; reflexivity).
  split; [exact E |].
  exact (proj1 (@title_and_address_have_no_outer_white_space ascii_runtime
                  Samples.place
                  (RecordSamples.around RecordSamples.cafe_block))
           _ E).
Defined.
